(** * Chat server: a shallow embedding of [server/index.js] and
      [server/models/Message.js]

    The server keeps one JavaScript object [users] (socket id -> record),
    relies on socket.io's rooms for fan-out and on a mongoose model for
    persistence.  Every socket handler is embedded as a total function from
    the state before the event to the state after it, the list of emitted
    events (one entry per receiving socket, in emission order) and the way the
    handler completed (returned, or threw / rejected its promise).

    What the environment decides (the uuid drawn by [uuidv4()], the clock read
    by [Date.now], whether MongoDB answers) is passed in explicitly as an
    [Env.t] next to the event.  A handler is taken as one step of the event
    loop: the code after an [await] runs as soon as the store has answered,
    with no other event handled in between.  [Loop] splits the handlers at
    their [await] for the statements in which other events come in between. *)

From Stdlib Require Import List NArith Bool String Ascii Lia PeanoNat.
From Stdlib Require Import Sorting.Sorted Sorting.Permutation.
Import ListNotations.

Local Open Scope list_scope.

(* ------------------------------------------------------------------------- *)
(** ** JavaScript values that reach the handlers *)

Module Js.

(** A JavaScript string is a sequence of UTF-16 code units; [.length]
    counts code units. *)
Definition str := list N.

(** ASCII literals of the source text. *)
Definition lit (s : string) : str := map N_of_ascii (list_ascii_of_string s).

Fixpoint str_eqb (a b : str) : bool :=
  match a, b with
  | [], [] => true
  | x :: a', y :: b' => N.eqb x y && str_eqb a' b'
  | _, _ => false
  end.

(** A destructured payload field: absent ([undefined]) or a string, the
    two shapes the client of this repository can produce. *)
Definition value := option str.
Definition undefined : value := None.

(** ToBoolean: [undefined] and the empty string are falsy. *)
Definition truthy (v : value) : bool :=
  match v with
  | Some (_ :: _) => true
  | _ => false
  end.

(** [a === b]. *)
Definition strict_eq (a b : value) : bool :=
  match a, b with
  | None, None => true
  | Some x, Some y => str_eqb x y
  | _, _ => false
  end.

(** A substitution in a template literal. *)
Definition to_string (v : value) : str :=
  match v with
  | Some s => s
  | None => lit "undefined"
  end.

(** ECMAScript WhiteSpace and LineTerminator code units, the ones
    [String.prototype.trim] strips. *)
Definition is_white_space (c : N) : bool :=
  ((9 <=? c) && (c <=? 13) || (c =? 32) || (c =? 160) || (c =? 5760)
   || (8192 <=? c) && (c <=? 8202) || (c =? 8232) || (c =? 8233)
   || (c =? 8239) || (c =? 8287) || (c =? 12288) || (c =? 65279))%N.

Fixpoint trimStart (s : str) : str :=
  match s with
  | c :: s' => if is_white_space c then trimStart s' else s
  | [] => []
  end.

Definition trimEnd (s : str) : str := rev (trimStart (rev s)).

Definition trim (s : str) : str := trimEnd (trimStart s).

(** Property assignment [o[k] = v] on an object used as a map: an existing
    key keeps its position, a new key goes last.  [Object.values] lists the
    values in that order (socket ids are 20 characters long, so none of
    them is an array index that would be listed first). *)
Fixpoint obj_set {V} (k : str) (v : V) (o : list (str * V)) : list (str * V) :=
  match o with
  | [] => [(k, v)]
  | (k', v') :: o' =>
      if str_eqb k' k then (k, v) :: o' else (k', v') :: obj_set k v o'
  end.

Fixpoint obj_get {V} (k : str) (o : list (str * V)) : option V :=
  match o with
  | [] => None
  | (k', v') :: o' => if str_eqb k' k then Some v' else obj_get k o'
  end.

(** [delete o[k]]. *)
Definition obj_delete {V} (k : str) (o : list (str * V)) : list (str * V) :=
  filter (fun kv => negb (str_eqb (fst kv) k)) o.

Definition Object_values {V} (o : list (str * V)) : list V := map snd o.

(** How a handler ends.  The handlers are [async]: an exception becomes a
    rejected promise that nothing catches. *)
Inductive error := TypeError | ValidationError | MongoError.

Inductive completion :=
| Returned
| Threw (e : error).

End Js.

(* ------------------------------------------------------------------------- *)
(** ** [models/Message.js] *)

Module Message.

(** A document of the [Message] model.  [username] and [message] are
    [required] paths, so they may still be missing on a document that has
    not been validated; [room] and [timestamp] carry schema defaults. *)
Record t := mk {
  username : Js.value;
  message : Js.value;
  room : Js.str;
  timestamp : N
}.

(** [new Message({ username, message, room })]: the defaults are applied at
    construction, [timestamp] from [Date.now]. *)
Definition create (now : N) (username message room : Js.value) : t :=
  {| username := username;
     message := message;
     room := match room with Some r => r | None => Js.lit "general" end;
     timestamp := now |}.

(** [required: true] on a String path rejects a missing value and the
    empty string. *)
Definition validate (m : t) : bool :=
  Js.truthy (username m) && Js.truthy (message m).

(** [msg.save()]: validation runs first, then the insert, which fails when
    MongoDB does not answer ([up = false]). *)
Definition save (up : bool) (db : list t) (m : t) : Js.error + list t :=
  if negb (validate m) then inl Js.ValidationError
  else if negb up then inl Js.MongoError
  else inr (db ++ [m]).

(** [.sort({ timestamp: -1 })]; documents with equal timestamps keep their
    insertion order. *)
Fixpoint insert_desc (m : t) (l : list t) : list t :=
  match l with
  | [] => [m]
  | x :: l' =>
      if (timestamp x <=? timestamp m)%N then m :: x :: l'
      else x :: insert_desc m l'
  end.

Definition sort_desc (l : list t) : list t := fold_right insert_desc [] l.

(** [Message.find({ room }).sort({ timestamp: -1 }).limit(50)]. *)
Definition recent (db : list t) (r : Js.str) : list t :=
  firstn 50 (sort_desc (filter (fun m => Js.str_eqb (room m) r) db)).

Definition find (up : bool) (db : list t) (r : Js.str) : Js.error + list t :=
  if negb up then inl Js.MongoError else inr (recent db r).

End Message.

(* ------------------------------------------------------------------------- *)
(** ** [index.js]: state, events and handlers *)

Module User.

(** The record stored at [users[socket.id]]: [{ id: userId, username, room }]. *)
Record t := mk {
  id : Js.str;
  username : Js.str;
  room : Js.str
}.

(** [recipient.socketId].  The record literal above has no [socketId]
    property, so reading it yields [undefined] for every stored user. *)
Definition socketId (u : t) : Js.value := Js.undefined.

End User.

Module Env.

(** What the outside world contributes to one handler run. *)
Record t := mk {
  uuid : Js.str;      (* the result of [uuidv4()] *)
  now : N;            (* [Date.now()] *)
  mongo_up : bool     (* whether the store answers this run's query *)
}.

End Env.

(** Events received from a client socket. *)
Module In.

Inductive t :=
| connection
| join (username room : Js.value)
| chat_message (message room username : Js.value)
| typing (username room : Js.value)
| stop_typing (room : Js.value)
| private_message (toUserId message username : Js.value)
| disconnect.

End In.

(** Events emitted to client sockets. *)
Module Out.

Inductive t :=
| error (reason : Js.str)
| chat_history (messages : list Message.t)
| user_joined (text : Js.str)
| user_left (text : Js.str)
| user_list (list_ : list User.t)
| chat_message (username : Js.value) (message : Js.str) (timestamp : N)
| typing (username : Js.value)
| stop_typing
| private_message_from (from : Js.value) (message : Js.value) (timestamp : N)
| private_message_to (to : Js.str) (message : Js.value) (timestamp : N).

End Out.

Module Server.

(** [users] is the object of line 31; [rooms] is socket.io's in-memory
    adapter, kept as the list of (socket id, room) pairs in the order the
    sockets joined; [messages] is the MongoDB collection behind the
    [Message] model. *)
Record State := mkState {
  users : list (Js.str * User.t);
  rooms : list (Js.str * Js.str);
  messages : list Message.t
}.

Definition init : State := {| users := []; rooms := []; messages := [] |}.

(** One emitted event reaching one socket. *)
Definition delivery := (Js.str * Out.t)%type.

Record reply := mkReply {
  after : State;
  sent : list delivery;
  how : Js.completion
}.

(** *** socket.io rooms *)

Definition in_room (a : list (Js.str * Js.str)) (sid r : Js.str) : bool :=
  existsb (fun p => Js.str_eqb (fst p) sid && Js.str_eqb (snd p) r) a.

(** [socket.join(room)]: a socket is in a room at most once. *)
Definition socket_join (a : list (Js.str * Js.str)) (sid r : Js.str) :=
  if in_room a sid r then a else a ++ [(sid, r)].

(** What socket.io does to a socket that closes, before it fires
    ['disconnect']: the socket leaves every room. *)
Definition leave_all (a : list (Js.str * Js.str)) (sid : Js.str) :=
  filter (fun p => negb (Js.str_eqb (fst p) sid)) a.

(** The sockets a room-targeted emit reaches. *)
Definition membersOf (a : list (Js.str * Js.str)) (r : Js.str) : list Js.str :=
  map fst (filter (fun p => Js.str_eqb (snd p) r) a).

(** [socket.emit(ev)]: to this socket only. *)
Definition socket_emit (sid : Js.str) (ev : Out.t) : list delivery := [(sid, ev)].

(** [io.to(room).emit(ev)]: to every socket in the room.  A room key that
    is [undefined] names no room. *)
Definition io_to (a : list (Js.str * Js.str)) (r : Js.value) (ev : Out.t)
  : list delivery :=
  match r with
  | Some r => map (fun s => (s, ev)) (membersOf a r)
  | None => []
  end.

(** [socket.to(room).emit(ev)]: to every socket in the room except the
    emitting one. *)
Definition socket_to (a : list (Js.str * Js.str)) (sid : Js.str) (r : Js.value)
           (ev : Out.t) : list delivery :=
  match r with
  | Some r =>
      map (fun s => (s, ev))
          (filter (fun s => negb (Js.str_eqb s sid)) (membersOf a r))
  | None => []
  end.

(** [Object.values(users).filter((u) => u.room === room)]. *)
Definition users_in (us : list (Js.str * User.t)) (r : Js.str) : list User.t :=
  filter (fun u => Js.str_eqb (User.room u) r) (Js.Object_values us).

(** *** The handlers of [io.on('connection', ...)] *)

(** A new socket: socket.io puts it in the room named by its own id, then
    the callback registers the handlers below. *)
Definition on_connection (st : State) (sid : Js.str) : reply :=
  {| after := {| users := users st;
                 rooms := socket_join (rooms st) sid sid;
                 messages := messages st |};
     sent := [];
     how := Js.Returned |}.

(** [socket.on('join', async ({ username, room }) => ...)].  The guard
    [!username || !room] lets through exactly two non-empty strings. *)
Definition on_join (env : Env.t) (st : State) (sid : Js.str)
           (username room : Js.value) : reply :=
  match username, room with
  | Some (c :: un), Some (d :: rm) =>
      let username := c :: un in
      let room := d :: rm in
      let userId := Env.uuid env in
      let st1 :=
        {| users := Js.obj_set sid
                      {| User.id := userId; User.username := username;
                         User.room := room |} (users st);
           rooms := socket_join (rooms st) sid room;
           messages := messages st |} in
      match Message.find (Env.mongo_up env) (messages st1) room with
      | inl e => {| after := st1; sent := []; how := Js.Threw e |}
      | inr found =>
          {| after := st1;
             sent :=
               socket_emit sid (Out.chat_history (rev found))
               ++ socket_to (rooms st1) sid (Some room)
                    (Out.user_joined (username ++ Js.lit " has joined the room"))
               ++ io_to (rooms st1) (Some room)
                    (Out.user_list (users_in (users st1) room));
             how := Js.Returned |}
      end
  | _, _ =>
      {| after := st;
         sent := socket_emit sid (Out.error (Js.lit "Username and room are required"));
         how := Js.Returned |}
  end.

(** [socket.on('chat message', async ({ message, room, username }) => ...)].
    [message.trim()] on a missing [message] is a TypeError. *)
Definition on_chat_message (env : Env.t) (st : State) (sid : Js.str)
           (message room username : Js.value) : reply :=
  match message with
  | None => {| after := st; sent := []; how := Js.Threw Js.TypeError |}
  | Some body =>
      if negb (Js.truthy (Some (Js.trim body))) || (500 <? List.length body)
      then {| after := st;
              sent := socket_emit sid (Out.error (Js.lit "Invalid message"));
              how := Js.Returned |}
      else
        let msg := Message.create (Env.now env) username (Some body) room in
        match Message.save (Env.mongo_up env) (messages st) msg with
        | inl e => {| after := st; sent := []; how := Js.Threw e |}
        | inr saved =>
            {| after := {| users := users st; rooms := rooms st;
                           messages := saved |};
               sent := io_to (rooms st) room
                         (Out.chat_message username body (Message.timestamp msg));
               how := Js.Returned |}
        end
  end.

(** [socket.on('typing', ({ username, room }) => ...)]. *)
Definition on_typing (st : State) (sid : Js.str) (username room : Js.value)
  : reply :=
  {| after := st;
     sent := socket_to (rooms st) sid room (Out.typing username);
     how := Js.Returned |}.

(** [socket.on('stop typing', ({ room }) => ...)]. *)
Definition on_stop_typing (st : State) (sid : Js.str) (room : Js.value) : reply :=
  {| after := st;
     sent := socket_to (rooms st) sid room Out.stop_typing;
     how := Js.Returned |}.

(** The room-like tag of a stored private message: [`private-${toUserId}`]. *)
Definition private_tag (toUserId : Js.value) : Js.str :=
  Js.lit "private-" ++ Js.to_string toUserId.

(** [socket.on('private message', async ({ toUserId, message, username }) => ...)]. *)
Definition on_private_message (env : Env.t) (st : State) (sid : Js.str)
           (toUserId message username : Js.value) : reply :=
  match find (fun u => Js.strict_eq (Some (User.id u)) toUserId)
             (Js.Object_values (users st)) with
  | None =>
      {| after := st;
         sent := socket_emit sid (Out.error (Js.lit "User not found"));
         how := Js.Returned |}
  | Some recipient =>
      let msg :=
        Message.create (Env.now env) username message
          (Some (private_tag toUserId)) in
      match Message.save (Env.mongo_up env) (messages st) msg with
      | inl e => {| after := st; sent := []; how := Js.Threw e |}
      | inr saved =>
          {| after := {| users := users st; rooms := rooms st;
                         messages := saved |};
             sent :=
               socket_to (rooms st) sid (User.socketId recipient)
                 (Out.private_message_from username message (Message.timestamp msg))
               ++ socket_emit sid
                    (Out.private_message_to (User.username recipient) message
                       (Message.timestamp msg));
             how := Js.Returned |}
      end
  end.

(** [socket.on('disconnect', () => ...)].  By the time the handler runs the
    socket has left its rooms; the user list is computed from [users]
    before the [delete]. *)
Definition on_disconnect (st : State) (sid : Js.str) : reply :=
  let left := leave_all (rooms st) sid in
  match Js.obj_get sid (users st) with
  | Some user =>
      {| after := {| users := Js.obj_delete sid (users st);
                     rooms := left;
                     messages := messages st |};
         sent :=
           socket_to left sid (Some (User.room user))
             (Out.user_left (User.username user ++ Js.lit " has left the room"))
           ++ io_to left (Some (User.room user))
                (Out.user_list (users_in (users st) (User.room user)));
         how := Js.Returned |}
  | None =>
      {| after := {| users := users st; rooms := left; messages := messages st |};
         sent := [];
         how := Js.Returned |}
  end.

(** One event of socket [sid]. *)
Definition handle (env : Env.t) (st : State) (sid : Js.str) (ev : In.t) : reply :=
  match ev with
  | In.connection => on_connection st sid
  | In.join username room => on_join env st sid username room
  | In.chat_message message room username =>
      on_chat_message env st sid message room username
  | In.typing username room => on_typing st sid username room
  | In.stop_typing room => on_stop_typing st sid room
  | In.private_message toUserId message username =>
      on_private_message env st sid toUserId message username
  | In.disconnect => on_disconnect st sid
  end.

(** A trace: the events in the order the event loop takes them, each with
    its socket and its environment.  [run] threads the state and collects
    everything emitted. *)
Definition step := (Env.t * Js.str * In.t)%type.

Fixpoint run (st : State) (tr : list step) : State * list delivery :=
  match tr with
  | [] => (st, [])
  | (env, sid, ev) :: tr' =>
      let r := handle env st sid ev in
      let '(st', out) := run (after r) tr' in
      (st', sent r ++ out)
  end.

(** The session of a socket and what the claims read from it. *)
Definition session (st : State) (sid : Js.str) : option User.t :=
  Js.obj_get sid (users st).

Definition received (sid : Js.str) (out : list delivery) : list Out.t :=
  map snd (filter (fun d => Js.str_eqb (fst d) sid) out).

(** What every state the server can reach satisfies: a socket is listed in
    a room at most once, and a socket with a session is in the socket.io
    room its session names. *)
Definition consistent (st : State) : Prop :=
  NoDup (rooms st) /\
  forall sid u, session st sid = Some u -> In (sid, User.room u) (rooms st).

(** The bodies that pass the guard of the chat-message handler. *)
Definition acceptable (body : Js.str) : Prop :=
  Js.trim body <> [] /\ List.length body <= 500.

End Server.

(* ------------------------------------------------------------------------- *)
(** ** The client's forms ([UsernamePrompt.js], [Chat.js], [App.js]) *)

Module Client.

(** What a form handler sends to the server over the component's socket, in
    order.  The fields are the components' state strings. *)

(** [UsernamePrompt.handleSubmit], whose [onJoin] is [App.handleJoin]:
    [socket.connect()] and then [socket.emit('join', { username, room })],
    provided both fields are non-blank. *)
Definition handleSubmit (username room : Js.str) : list In.t :=
  if Js.truthy (Some (Js.trim username)) && Js.truthy (Some (Js.trim room))
  then [In.connection; In.join (Some username) (Some room)]
  else [].

(** [Chat.sendMessage]: for a non-blank input, the message and then
    ['stop typing']. *)
Definition sendMessage (message room username : Js.str) : list In.t :=
  if Js.truthy (Some (Js.trim message))
  then [In.chat_message (Some message) (Some room) (Some username);
        In.stop_typing (Some room)]
  else [].

(** [Chat.handleTyping] and [Chat.handleStopTyping]. *)
Definition handleTyping (username room : Js.str) : list In.t :=
  [In.typing (Some username) (Some room)].

Definition handleStopTyping (room : Js.str) : list In.t :=
  [In.stop_typing (Some room)].

End Client.

(* ------------------------------------------------------------------------- *)
(** ** Vocabulary of the statements *)

Module Facts.

Import Server.

(** The states the server gets into from its start. *)
Definition reachable (st : State) : Prop := exists tr, st = fst (run init tr).

(** The events that only relay or store messages. *)
Definition messaging (ev : In.t) : bool :=
  match ev with
  | In.chat_message _ _ _ | In.typing _ _ | In.stop_typing _
  | In.private_message _ _ _ => true
  | In.connection | In.join _ _ | In.disconnect => false
  end.

(** [a] is not newer than [b]. *)
Definition not_newer (a b : Message.t) : Prop :=
  (Message.timestamp a <= Message.timestamp b)%N.

(** The stored messages of one room. *)
Definition of_room (db : list Message.t) (r : Js.str) : list Message.t :=
  filter (fun m => Js.str_eqb (Message.room m) r) db.

(** The events of one socket, each with its environment. *)
Definition from (sid : Js.str) (evs : list (Env.t * In.t)) : list step :=
  map (fun e => (fst e, sid, snd e)) evs.

(** Is an emitted event an ['error']? *)
Definition is_error (ev : Out.t) : bool :=
  match ev with
  | Out.error _ => true
  | _ => false
  end.

End Facts.

(* ------------------------------------------------------------------------- *)
(** ** The event loop with handlers suspended at their [await] *)

Module Loop.

Import Server.

(** The part of an [async] handler that runs once the awaited store
    operation has answered, with what it captured before the [await]. *)
Inductive task :=
| join_rest (sid username room : Js.str)
    (* after [await Message.find({ room })...] *)
| chat_rest (sid : Js.str) (msg : Message.t) (username : Js.value)
            (body : Js.str) (room : Js.value)
    (* after [await msg.save()] in 'chat message' *)
| private_rest (sid : Js.str) (msg : Message.t) (recipient : User.t)
               (username message : Js.value).
    (* after [await msg.save()] in 'private message' *)

(** How the synchronous part of a handler ends. *)
Inductive outcome :=
| finished (how : Js.completion)
| awaiting (t : task).

Record started := mkStarted {
  state_now : State;
  emitted : list delivery;
  next : outcome
}.

Definition whole (r : reply) : started :=
  {| state_now := after r; emitted := sent r; next := finished (how r) |}.

(** A handler from the arrival of its event up to its first [await], or to
    its end when it has none on the path taken. *)
Definition start (env : Env.t) (st : State) (sid : Js.str) (ev : In.t) : started :=
  match ev with
  | In.connection => whole (on_connection st sid)
  | In.join username room =>
      match username, room with
      | Some (c :: un), Some (d :: rm) =>
          let username := c :: un in
          let room := d :: rm in
          let userId := Env.uuid env in
          {| state_now :=
               {| users := Js.obj_set sid
                             {| User.id := userId; User.username := username;
                                User.room := room |} (users st);
                  rooms := socket_join (rooms st) sid room;
                  messages := messages st |};
             emitted := [];
             next := awaiting (join_rest sid username room) |}
      | _, _ =>
          {| state_now := st;
             emitted :=
               socket_emit sid (Out.error (Js.lit "Username and room are required"));
             next := finished Js.Returned |}
      end
  | In.chat_message message room username =>
      match message with
      | None =>
          {| state_now := st; emitted := []; next := finished (Js.Threw Js.TypeError) |}
      | Some body =>
          if negb (Js.truthy (Some (Js.trim body))) || (500 <? List.length body)
          then {| state_now := st;
                  emitted := socket_emit sid (Out.error (Js.lit "Invalid message"));
                  next := finished Js.Returned |}
          else
            let msg := Message.create (Env.now env) username (Some body) room in
            {| state_now := st; emitted := [];
               next := awaiting (chat_rest sid msg username body room) |}
      end
  | In.typing username room => whole (on_typing st sid username room)
  | In.stop_typing room => whole (on_stop_typing st sid room)
  | In.private_message toUserId message username =>
      match find (fun u => Js.strict_eq (Some (User.id u)) toUserId)
                 (Js.Object_values (users st)) with
      | None =>
          {| state_now := st;
             emitted := socket_emit sid (Out.error (Js.lit "User not found"));
             next := finished Js.Returned |}
      | Some recipient =>
          let msg :=
            Message.create (Env.now env) username message
              (Some (private_tag toUserId)) in
          {| state_now := st; emitted := [];
             next := awaiting (private_rest sid msg recipient username message) |}
      end
  | In.disconnect => whole (on_disconnect st sid)
  end.

(** The rest of a suspended handler, run in the state the server is in when
    the store answers ([up]: whether it answers with success). *)
Definition resume (up : bool) (st : State) (t : task) : reply :=
  match t with
  | join_rest sid username room =>
      match Message.find up (messages st) room with
      | inl e => {| after := st; sent := []; how := Js.Threw e |}
      | inr found =>
          {| after := st;
             sent :=
               socket_emit sid (Out.chat_history (rev found))
               ++ socket_to (rooms st) sid (Some room)
                    (Out.user_joined (username ++ Js.lit " has joined the room"))
               ++ io_to (rooms st) (Some room)
                    (Out.user_list (users_in (users st) room));
             how := Js.Returned |}
      end
  | chat_rest sid msg username body room =>
      match Message.save up (messages st) msg with
      | inl e => {| after := st; sent := []; how := Js.Threw e |}
      | inr saved =>
          {| after := {| users := users st; rooms := rooms st;
                         messages := saved |};
             sent := io_to (rooms st) room
                       (Out.chat_message username body (Message.timestamp msg));
             how := Js.Returned |}
      end
  | private_rest sid msg recipient username message =>
      match Message.save up (messages st) msg with
      | inl e => {| after := st; sent := []; how := Js.Threw e |}
      | inr saved =>
          {| after := {| users := users st; rooms := rooms st;
                         messages := saved |};
             sent :=
               socket_to (rooms st) sid (User.socketId recipient)
                 (Out.private_message_from username message (Message.timestamp msg))
               ++ socket_emit sid
                    (Out.private_message_to (User.username recipient) message
                       (Message.timestamp msg));
             how := Js.Returned |}
      end
  end.

(** What the loop takes next: an event arriving from a socket, or the
    store answering the [n]-th of the handlers that are waiting (counted from
    the one suspended longest). *)
Inductive tick :=
| arrive (e : step)
| answer (n : nat) (up : bool).

(** The server between two ticks: its state and the suspended handlers. *)
Definition config := (State * list task)%type.

Definition tick_once (c : config) (t : tick) : config * list delivery :=
  let '(st, waiting) := c in
  match t with
  | arrive (env, sid, ev) =>
      let s := start env st sid ev in
      match next s with
      | finished _ => ((state_now s, waiting), emitted s)
      | awaiting k => ((state_now s, waiting ++ [k]), emitted s)
      end
  | answer n up =>
      match nth_error waiting n with
      | Some k =>
          let r := resume up st k in
          ((after r, firstn n waiting ++ skipn (S n) waiting), sent r)
      | None => (c, [])
      end
  end.

Fixpoint run (c : config) (ts : list tick) : config * list delivery :=
  match ts with
  | [] => (c, [])
  | t :: ts' =>
      let '(c1, out1) := tick_once c t in
      let '(c2, out2) := run c1 ts' in
      (c2, out1 ++ out2)
  end.

End Loop.

(* ------------------------------------------------------------------------- *)
(** ** A small population used in the examples *)

Module Scenario.

Import Server.

Definition js (s : string) : Js.value := Some (Js.lit s).

Definition alice_socket : Js.str := Js.lit "A1iceSock3tId0000001".
Definition bob_socket : Js.str := Js.lit "B0bSocketId000000002".
Definition eve_socket : Js.str := Js.lit "EveSocketId000000003".

Definition alice_id : Js.str := Js.lit "0a1b6c1e-0000-4000-8000-00000000000a".
Definition bob_id : Js.str := Js.lit "0a1b6c1e-0000-4000-8000-00000000000b".
Definition fresh_id : Js.str := Js.lit "0a1b6c1e-0000-4000-8000-00000000000c".

Definition at_ (uuid : Js.str) (now : N) : Env.t :=
  {| Env.uuid := uuid; Env.now := now; Env.mongo_up := true |}.

Definition store_down (now : N) : Env.t :=
  {| Env.uuid := fresh_id; Env.now := now; Env.mongo_up := false |}.

(** alice and bob connect and join "general"; eve only connects. *)
Definition lobby_trace : list step :=
  [ (at_ fresh_id 10, alice_socket, In.connection);
    (at_ alice_id 11, alice_socket, In.join (js "alice") (js "general"));
    (at_ fresh_id 12, bob_socket, In.connection);
    (at_ bob_id 13, bob_socket, In.join (js "bob") (js "general"));
    (at_ fresh_id 14, eve_socket, In.connection) ].

Definition lobby : State := fst (run init lobby_trace).

Definition alice : User.t :=
  {| User.id := alice_id; User.username := Js.lit "alice";
     User.room := Js.lit "general" |}.

Definition bob : User.t :=
  {| User.id := bob_id; User.username := Js.lit "bob";
     User.room := Js.lit "general" |}.

(** alice then picks another room from the room list. *)
Definition switched : State :=
  after (handle (at_ fresh_id 20) lobby alice_socket
           (In.join (js "alice") (js "random"))).

(** alice sends bob a private message. *)
Definition whispered : reply :=
  handle (at_ fresh_id 30) lobby alice_socket
    (In.private_message (Some bob_id) (js "secret") (js "alice")).

Definition secret : Message.t :=
  {| Message.username := js "alice"; Message.message := js "secret";
     Message.room := private_tag (Some bob_id); Message.timestamp := 30 |}.

(** carol, a fourth socket that has not connected. *)
Definition carol_socket : Js.str := Js.lit "Car0lSocketId0000004".

(** Three messages in "general" and one in "random", stored out of
    timestamp order. *)
Definition archive : list Message.t :=
  [ {| Message.username := js "bob"; Message.message := js "second";
       Message.room := Js.lit "general"; Message.timestamp := 5 |};
    {| Message.username := js "alice"; Message.message := js "elsewhere";
       Message.room := Js.lit "random"; Message.timestamp := 6 |};
    {| Message.username := js "alice"; Message.message := js "first";
       Message.room := Js.lit "general"; Message.timestamp := 2 |};
    {| Message.username := js "bob"; Message.message := js "third";
       Message.room := Js.lit "general"; Message.timestamp := 9 |} ].

(** Fifty-one messages in "general", the n-th one stamped n. *)
Definition numbered (n : nat) : Message.t :=
  {| Message.username := js "bob"; Message.message := js "again";
     Message.room := Js.lit "general"; Message.timestamp := N.of_nat n |}.

Definition busy : list Message.t := map numbered (seq 1 51).

End Scenario.

(* ------------------------------------------------------------------------- *)
(** ** Facts about the JavaScript layer *)

Lemma str_eqb_eq (a b : Js.str) : Js.str_eqb a b = true <-> a = b.
Proof.
  revert b; induction a as [|x a IH]; intros [|y b]; simpl; split;
    try congruence; try reflexivity.
  - intros H. apply andb_true_iff in H as [Hx Hr].
    apply N.eqb_eq in Hx. apply IH in Hr. congruence.
  - intros H. injection H as -> ->. rewrite N.eqb_refl. simpl. now apply IH.
Qed.

Lemma str_eqb_refl (a : Js.str) : Js.str_eqb a a = true.
Proof. now apply str_eqb_eq. Qed.

Lemma str_eqb_neq (a b : Js.str) : Js.str_eqb a b = false <-> a <> b.
Proof.
  split.
  - intros H E. apply str_eqb_eq in E. congruence.
  - intros H. destruct (Js.str_eqb a b) eqn:E; [|reflexivity].
    apply str_eqb_eq in E. contradiction.
Qed.

Lemma str_eqb_sym (a b : Js.str) : Js.str_eqb a b = Js.str_eqb b a.
Proof.
  destruct (Js.str_eqb a b) eqn:E.
  - apply str_eqb_eq in E. subst. symmetry. apply str_eqb_refl.
  - symmetry. apply str_eqb_neq. apply str_eqb_neq in E. congruence.
Qed.

Lemma truthy_some (v : Js.value) :
  Js.truthy v = true -> exists c s, v = Some (c :: s).
Proof. destruct v as [[|c s]|]; simpl; try discriminate. eauto. Qed.

Section ObjectFacts.

Context {V : Type}.
Implicit Types (o : list (Js.str * V)) (k : Js.str) (v : V).

Lemma obj_get_set_same o k v : Js.obj_get k (Js.obj_set k v o) = Some v.
Proof.
  induction o as [|[k' v'] o IH]; simpl.
  - now rewrite str_eqb_refl.
  - destruct (Js.str_eqb k' k) eqn:E; simpl.
    + now rewrite str_eqb_refl.
    + now rewrite E.
Qed.

Lemma obj_get_set_other o k k' v :
  k' <> k -> Js.obj_get k' (Js.obj_set k v o) = Js.obj_get k' o.
Proof.
  intros Hne. induction o as [|[k0 v0] o IH]; simpl.
  - assert (Js.str_eqb k k' = false) as -> by (apply str_eqb_neq; congruence).
    reflexivity.
  - destruct (Js.str_eqb k0 k) eqn:E; simpl.
    + apply str_eqb_eq in E. subst k0.
      assert (Js.str_eqb k k' = false) as -> by (apply str_eqb_neq; congruence).
      reflexivity.
    + now rewrite IH.
Qed.

Lemma obj_set_keys o k v v0 :
  Js.obj_get k o = Some v0 -> map fst (Js.obj_set k v o) = map fst o.
Proof.
  induction o as [|[k' v'] o IH]; simpl; [discriminate|].
  destruct (Js.str_eqb k' k) eqn:E; simpl.
  - intros _. apply str_eqb_eq in E. now subst.
  - intros H. now rewrite IH.
Qed.

Lemma obj_get_delete_same o k : Js.obj_get k (Js.obj_delete k o) = None.
Proof.
  induction o as [|[k' v'] o IH]; simpl; [reflexivity|].
  destruct (Js.str_eqb k' k) eqn:E; simpl; [assumption|].
  now rewrite E.
Qed.

Lemma obj_get_delete_other o k k' :
  k' <> k -> Js.obj_get k' (Js.obj_delete k o) = Js.obj_get k' o.
Proof.
  intros Hne. induction o as [|[k0 v0] o IH]; simpl; [reflexivity|].
  destruct (Js.str_eqb k0 k) eqn:E; simpl.
  - apply str_eqb_eq in E. subst k0.
    assert (Js.str_eqb k k' = false) as -> by (apply str_eqb_neq; congruence).
    assumption.
  - now rewrite IH.
Qed.

Lemma obj_get_In o k v : Js.obj_get k o = Some v -> In v (Js.Object_values o).
Proof.
  induction o as [|[k' v'] o IH]; simpl; [discriminate|].
  destruct (Js.str_eqb k' k); intros H; [left; congruence | right; auto].
Qed.

End ObjectFacts.

(* ------------------------------------------------------------------------- *)
(** ** Facts about the store *)

Lemma In_insert_desc (m x : Message.t) (l : list Message.t) :
  In x (Message.insert_desc m l) <-> x = m \/ In x l.
Proof.
  induction l as [|y l IH]; simpl.
  - intuition congruence.
  - destruct (Message.timestamp y <=? Message.timestamp m)%N; simpl.
    + intuition congruence.
    + rewrite IH. intuition congruence.
Qed.

Lemma In_sort_desc (x : Message.t) (l : list Message.t) :
  In x (Message.sort_desc l) <-> In x l.
Proof.
  induction l as [|y l IH]; simpl; [reflexivity|].
  rewrite In_insert_desc, IH. intuition congruence.
Qed.

Lemma In_firstn {A} (n : nat) (l : list A) (x : A) : In x (firstn n l) -> In x l.
Proof.
  revert l; induction n as [|n IH]; intros [|y l]; simpl; try tauto.
  intros [->|H]; [now left | right; now apply IH].
Qed.

(** A query answers with stored documents of the requested room only. *)
Lemma find_sound (up : bool) (db found : list Message.t) (r : Js.str) (m : Message.t) :
  Message.find up db r = inr found -> In m found ->
  In m db /\ Message.room m = r.
Proof.
  unfold Message.find. destruct (negb up); [discriminate|].
  intros H Hin. assert (found = Message.recent db r) as -> by congruence.
  unfold Message.recent in Hin.
  apply In_firstn, In_sort_desc, filter_In in Hin as [Hdb Hr].
  split; [assumption | now apply str_eqb_eq].
Qed.

Lemma find_up (db : list Message.t) (r : Js.str) :
  Message.find true db r = inr (Message.recent db r).
Proof. reflexivity. Qed.

Lemma save_ok (up : bool) (db : list Message.t) (m : Message.t) :
  Message.validate m = true -> up = true -> Message.save up db m = inr (db ++ [m]).
Proof. unfold Message.save. now intros -> ->. Qed.

Lemma save_down (db : list Message.t) (m : Message.t) :
  exists e, Message.save false db m = inl e.
Proof.
  unfold Message.save. destruct (negb (Message.validate m)); simpl; eauto.
Qed.

(* ------------------------------------------------------------------------- *)
(** ** Facts about rooms *)

Import Server.

Lemma in_room_spec (a : list (Js.str * Js.str)) (sid r : Js.str) :
  in_room a sid r = true <-> In (sid, r) a.
Proof.
  unfold in_room. rewrite existsb_exists. split.
  - intros [[s q] [Hin H]]. simpl in H.
    apply andb_true_iff in H as [H1 H2].
    apply str_eqb_eq in H1, H2. now subst.
  - intros H. exists (sid, r). simpl. now rewrite !str_eqb_refl.
Qed.

Lemma membersOf_spec (a : list (Js.str * Js.str)) (sid r : Js.str) :
  In sid (membersOf a r) <-> In (sid, r) a.
Proof.
  unfold membersOf. rewrite in_map_iff. split.
  - intros [[s q] [E H]]. simpl in E. subst s.
    apply filter_In in H as [H Hq]. simpl in Hq.
    apply str_eqb_eq in Hq. now subst.
  - intros H. exists (sid, r). split; [reflexivity|].
    apply filter_In. split; [assumption|]. simpl. apply str_eqb_refl.
Qed.

Lemma In_socket_join (a : list (Js.str * Js.str)) (sid r : Js.str) p :
  In p (socket_join a sid r) <-> In p a \/ p = (sid, r).
Proof.
  unfold socket_join. destruct (in_room a sid r) eqn:E.
  - apply in_room_spec in E. intuition congruence.
  - rewrite in_app_iff. simpl. intuition congruence.
Qed.

Lemma In_leave_all (a : list (Js.str * Js.str)) (sid : Js.str) p :
  In p (leave_all a sid) <-> In p a /\ fst p <> sid.
Proof.
  unfold leave_all. rewrite filter_In, negb_true_iff, str_eqb_neq. reflexivity.
Qed.

Lemma NoDup_socket_join (a : list (Js.str * Js.str)) (sid r : Js.str) :
  NoDup a -> NoDup (socket_join a sid r).
Proof.
  intros H. unfold socket_join. destruct (in_room a sid r) eqn:E; [assumption|].
  apply NoDup_app; [assumption | repeat constructor; simpl; tauto |].
  intros p Hp [<-|[]].
  apply in_room_spec in Hp. congruence.
Qed.

Lemma NoDup_leave_all (a : list (Js.str * Js.str)) (sid : Js.str) :
  NoDup a -> NoDup (leave_all a sid).
Proof. apply NoDup_filter. Qed.

Lemma NoDup_membersOf (a : list (Js.str * Js.str)) (r : Js.str) :
  NoDup a -> NoDup (membersOf a r).
Proof.
  unfold membersOf. induction 1 as [|[s q] a Hnin Hnd IH]; simpl; [constructor|].
  destruct (Js.str_eqb q r) eqn:E; simpl; [|assumption].
  apply str_eqb_eq in E. subst q. constructor; [|assumption].
  intros Hin. apply (membersOf_spec a s r) in Hin. contradiction.
Qed.

(* ------------------------------------------------------------------------- *)
(** ** Reachable states *)

Lemma consistent_init : consistent init.
Proof. split; [constructor | discriminate]. Qed.

Lemma consistent_on_join env st sid username room :
  consistent st -> consistent (after (on_join env st sid username room)).
Proof.
  intros [Hnd Hs]. unfold on_join.
  destruct username as [[|c un]|]; try (split; assumption).
  destruct room as [[|d rm]|]; try (split; assumption).
  assert (consistent
            {| users := Js.obj_set sid
                          {| User.id := Env.uuid env; User.username := c :: un;
                             User.room := d :: rm |} (users st);
               rooms := socket_join (rooms st) sid (d :: rm);
               messages := messages st |}) as Hc.
  { split; simpl.
    - now apply NoDup_socket_join.
    - intros sid' u. unfold session; simpl. intros H.
      apply In_socket_join.
      destruct (Js.str_eqb sid' sid) eqn:E.
      + apply str_eqb_eq in E. subst sid'.
        rewrite obj_get_set_same in H. injection H as <-. now right.
      + apply str_eqb_neq in E. rewrite obj_get_set_other in H by assumption.
        left. now apply Hs. }
  simpl messages. destruct (Message.find _ _ _); exact Hc.
Qed.

Lemma consistent_on_disconnect st sid :
  consistent st -> consistent (after (on_disconnect st sid)).
Proof.
  intros [Hnd Hs]. unfold on_disconnect.
  destruct (Js.obj_get sid (users st)) as [user|] eqn:Hu; split; simpl;
    try (now apply NoDup_leave_all);
    intros sid' u; unfold session; simpl; intros H; apply In_leave_all; simpl.
  - destruct (Js.str_eqb sid' sid) eqn:E.
    + apply str_eqb_eq in E. subst sid'.
      rewrite obj_get_delete_same in H. discriminate.
    + apply str_eqb_neq in E. rewrite obj_get_delete_other in H by assumption.
      split; [now apply Hs | assumption].
  - split; [now apply Hs|]. intros ->. congruence.
Qed.

Lemma consistent_handle env st sid ev :
  consistent st -> consistent (after (handle env st sid ev)).
Proof.
  intros Hc. destruct ev; simpl.
  - destruct Hc as [Hnd Hs]. split; simpl.
    + now apply NoDup_socket_join.
    + intros sid' u H. apply In_socket_join. left. now apply Hs.
  - now apply consistent_on_join.
  - unfold on_chat_message. destruct message as [body|]; [|assumption].
    destruct (_ || _); [assumption|].
    destruct (Message.save _ _ _); [assumption|]. exact Hc.
  - assumption.
  - assumption.
  - unfold on_private_message. destruct (find _ _); [|assumption].
    destruct (Message.save _ _ _); [assumption|]. exact Hc.
  - now apply consistent_on_disconnect.
Qed.

Lemma run_app st tr1 tr2 :
  run st (tr1 ++ tr2) =
  (fst (run (fst (run st tr1)) tr2), snd (run st tr1) ++ snd (run (fst (run st tr1)) tr2)).
Proof.
  revert st; induction tr1 as [|[[env sid] ev] tr1 IH]; intros st; simpl.
  - now destruct (run st tr2).
  - rewrite IH. destruct (run (after (handle env st sid ev)) tr1) as [st1 o1]; simpl.
    now rewrite app_assoc.
Qed.

Lemma consistent_run st tr : consistent st -> consistent (fst (run st tr)).
Proof.
  revert st; induction tr as [|[[env sid] ev] tr IH]; intros st Hc; simpl.
  - assumption.
  - specialize (IH _ (consistent_handle env st sid ev Hc)).
    now destruct (run (after (handle env st sid ev)) tr).
Qed.

(** Every socket with a session receives the broadcasts of the room its
    session names, after any sequence of events. *)
Lemma session_room_is_joined tr sid u :
  session (fst (run init tr)) sid = Some u ->
  In sid (membersOf (rooms (fst (run init tr))) (User.room u)).
Proof.
  intros H. apply membersOf_spec.
  now apply (consistent_run init tr consistent_init).
Qed.

(** What one socket gets out of a broadcast. *)
Lemma received_broadcast (ev : Out.t) (l : list Js.str) (sid : Js.str) :
  NoDup l -> In sid l -> received sid (map (fun s => (s, ev)) l) = [ev].
Proof.
  unfold received. induction 1 as [|s l Hnin Hnd IH]; simpl; [tauto|].
  intros [->|Hin].
  - rewrite str_eqb_refl. simpl. f_equal.
    assert (filter (fun d => Js.str_eqb (fst d) sid)
                   (map (fun s => (s, ev)) l) = []) as ->; [|reflexivity].
    clear IH Hnd. induction l as [|x l IH]; simpl; [reflexivity|].
    assert (Js.str_eqb x sid = false) as ->.
    { apply str_eqb_neq. intros ->. apply Hnin. now left. }
    apply IH. intros H. apply Hnin. now right.
  - assert (Js.str_eqb s sid = false) as ->.
    { apply str_eqb_neq. intros ->. contradiction. }
    now apply IH.
Qed.

Lemma received_app sid o1 o2 :
  received sid (o1 ++ o2) = received sid o1 ++ received sid o2.
Proof. unfold received. now rewrite filter_app, map_app. Qed.

Lemma received_others (ev : Out.t) (l : list Js.str) (sid : Js.str) :
  ~ In sid l -> received sid (map (fun s => (s, ev)) l) = [].
Proof.
  unfold received. induction l as [|x l IH]; simpl; [reflexivity|].
  intros H. assert (Js.str_eqb x sid = false) as ->.
  { apply str_eqb_neq. intros ->. apply H. now left. }
  apply IH. tauto.
Qed.

(* ------------------------------------------------------------------------- *)
(** ** Room membership and sessions *)

Import Scenario.

(** A join never takes a socket out of a room: the handler only ever calls
    [socket.join]. *)
Lemma join_never_leaves env st sid username room s r :
  In s (membersOf (rooms st) r) ->
  In s (membersOf (rooms (after (handle env st sid (In.join username room)))) r).
Proof.
  rewrite !membersOf_spec. unfold handle, on_join. intros H.
  destruct username as [[|c un]|]; try assumption.
  destruct room as [[|d rm]|]; try assumption.
  cbn [messages].
  destruct (Message.find _ _ _); cbn [after rooms];
    apply In_socket_join; now left.
Qed.

(** C1.  The claim: after any sequence of join, room-switch and disconnect
    events the sockets that receive the broadcasts of a room are exactly
    those whose session names that room, no socket is in two rooms, and a
    socket that switches rooms stops receiving the broadcasts of the room it
    left.  The join handler calls [socket.join] for the new room and never
    leaves the old one: after alice switches from "general" to "random" her
    session names "random", she is a member of both rooms, and a message bob
    posts to "general" is still delivered to her. *)
Theorem C1_switch_keeps_vacated_room :
  option_map User.room (session switched alice_socket) = Some (Js.lit "random")
  /\ membersOf (rooms switched) (Js.lit "general") = [alice_socket; bob_socket]
  /\ membersOf (rooms switched) (Js.lit "random") = [alice_socket]
  /\ received alice_socket
       (sent (handle (at_ fresh_id 21) switched bob_socket
                (In.chat_message (js "hi") (js "general") (js "bob"))))
     = [Out.chat_message (js "bob") (Js.lit "hi") 21].
Proof. vm_compute. repeat split. Qed.

(** C3 as stated fails: alice has a session, joins again, and the user id of
    her socket afterwards is the newly drawn one. *)
Lemma C3_counterexample :
  option_map User.id (session lobby alice_socket) = Some alice_id
  /\ option_map User.id (session switched alice_socket) = Some fresh_id
  /\ option_map User.id (session switched alice_socket)
     <> option_map User.id (session lobby alice_socket).
Proof. vm_compute. repeat split. discriminate. Qed.

(** C3, amended.  For a socket that already has a session, a further valid
    join overwrites the record under the same socket id: no second entry
    appears and the other sessions are untouched, the room and the name are
    those of the new join, and the user id is the one [uuidv4()] has just
    returned. *)
Theorem C3_join_overwrites_session_in_place
        env st sid (old : User.t) (username room : Js.value) :
  session st sid = Some old ->
  Js.truthy username = true ->
  Js.truthy room = true ->
  let st' := after (handle env st sid (In.join username room)) in
  session st' sid
  = Some {| User.id := Env.uuid env;
            User.username := Js.to_string username;
            User.room := Js.to_string room |}
  /\ map fst (users st') = map fst (users st)
  /\ forall other, other <> sid -> session st' other = session st other.
Proof.
  intros Hold Hu Hr.
  apply truthy_some in Hu as (c & un & ->).
  apply truthy_some in Hr as (d & rm & ->).
  simpl. unfold on_join. simpl messages.
  destruct (Message.find _ _ _); simpl; unfold session; simpl;
    (split; [apply obj_get_set_same|]);
    (split; [now apply obj_set_keys with (v0 := old)|]);
    intros other Hne; now apply obj_get_set_other.
Qed.

Lemma C3_join_overwrites_session_in_place_witness :
  session switched alice_socket
  = Some {| User.id := fresh_id; User.username := Js.lit "alice";
            User.room := Js.lit "random" |}
  /\ map fst (users switched) = map fst (users lobby)
  /\ forall other, other <> alice_socket ->
                   session switched other = session lobby other.
Proof.
  apply (C3_join_overwrites_session_in_place
           (at_ fresh_id 20) lobby alice_socket alice (js "alice") (js "random"));
    reflexivity.
Defined.

(* ------------------------------------------------------------------------- *)
(** ** Private messages *)

(** Whatever a private message emits goes to the sending socket: the
    recipient is addressed through [recipient.socketId], which no stored
    user has. *)
Lemma private_message_reaches_sender_only env st sid toUserId message username d :
  In d (sent (handle env st sid (In.private_message toUserId message username))) ->
  fst d = sid.
Proof.
  simpl. unfold on_private_message.
  destruct (find _ _) as [recipient|]; simpl.
  - destruct (Message.save _ _ _); simpl; [tauto|].
    intros [<-|[]]. reflexivity.
  - intros [<-|[]]. reflexivity.
Qed.

(** A private message that is stored is stored under [private_tag]. *)
Lemma private_message_is_tagged env st sid toUserId message username :
  let r := handle env st sid (In.private_message toUserId message username) in
  messages (after r) = messages st
  \/ messages (after r)
     = messages st
       ++ [Message.create (Env.now env) username message
             (Some (private_tag toUserId))].
Proof.
  simpl. unfold on_private_message.
  destruct (find _ _) as [recipient|]; simpl; [|now left].
  unfold Message.save.
  destruct (negb _); simpl; [now left|].
  destruct (negb _); simpl; [now left | now right].
Qed.

(** C2.  The claim: a private message whose target has a live session is
    persisted, delivered to the recipient's current connection and confirmed
    to the sender.  bob has a live session and alice addresses him by his
    user id: the message is persisted and alice gets her confirmation, but
    nothing at all is delivered to bob. *)
Theorem C2_private_message_not_delivered :
  session lobby bob_socket = Some bob
  /\ how whispered = Js.Returned
  /\ messages (after whispered) = [secret]
  /\ received bob_socket (sent whispered) = []
  /\ sent whispered
     = [(alice_socket, Out.private_message_to (Js.lit "bob") (js "secret") 30)].
Proof. vm_compute. repeat split. Qed.

(* ------------------------------------------------------------------------- *)
(** ** Room messages *)

Lemma trim_nil : Js.trim [] = [].
Proof. reflexivity. Qed.

Lemma acceptable_guard body :
  acceptable body ->
  negb (Js.truthy (Some (Js.trim body))) || (500 <? List.length body) = false.
Proof.
  intros [Ht Hl]. apply orb_false_iff. split.
  - destruct (Js.trim body); [congruence | reflexivity].
  - apply Nat.ltb_ge. exact Hl.
Qed.

Lemma acceptable_truthy body : acceptable body -> Js.truthy (Some body) = true.
Proof. intros [Ht _]. destruct body; [now rewrite trim_nil in Ht | reflexivity]. Qed.

(** C8.  A chat message whose body is empty after trimming or longer than
    500 code units is answered with the error 'Invalid message' on the
    sending socket only; nothing is broadcast and the state, the store
    included, is unchanged. *)
Theorem C8_invalid_message_rejected env st sid body room username :
  Js.trim body = [] \/ 500 < List.length body ->
  handle env st sid (In.chat_message (Some body) room username)
  = {| after := st;
       sent := [(sid, Out.error (Js.lit "Invalid message"))];
       how := Js.Returned |}.
Proof.
  intros H. unfold handle, on_chat_message.
  assert (negb (Js.truthy (Some (Js.trim body))) || (500 <? List.length body)
          = true) as ->; [|reflexivity].
  destruct H as [-> | H].
  - reflexivity.
  - apply Nat.ltb_lt in H. rewrite H. apply orb_true_r.
Qed.

Lemma C8_invalid_message_rejected_witness :
  handle (at_ fresh_id 80) lobby alice_socket
    (In.chat_message (js "   ") (js "general") (js "alice"))
  = {| after := lobby;
       sent := [(alice_socket, Out.error (Js.lit "Invalid message"))];
       how := Js.Returned |}.
Proof.
  apply (C8_invalid_message_rejected (at_ fresh_id 80) lobby alice_socket
           (Js.lit "   ") (js "general") (js "alice")).
  left. reflexivity.
Defined.

(** The same on a body of 501 letters. *)
Example over_length_rejected :
  sent (handle (at_ fresh_id 81) lobby alice_socket
          (In.chat_message (Some (repeat 97%N 501)) (js "general") (js "alice")))
  = [(alice_socket, Out.error (Js.lit "Invalid message"))].
Proof. vm_compute. reflexivity. Qed.

(** C10.  The claim: the chat-message handler ends normally on every
    payload, reporting an error to the sender when the body is missing.
    With the [message] field absent the guard's [message.trim()] throws: the
    handler's promise is rejected with a TypeError and no error event (nor
    anything else) is emitted. *)
Theorem C10_missing_body_throws env st sid room username :
  handle env st sid (In.chat_message Js.undefined room username)
  = {| after := st; sent := []; how := Js.Threw Js.TypeError |}.
Proof. reflexivity. Qed.

(** C4 as stated fails: eve's socket never joined, yet her message is
    accepted without any error, stored, and broadcast to "general" under the
    name and the room her payload gives. *)
Lemma C4_counterexample :
  let r := handle (at_ fresh_id 40) lobby eve_socket
             (In.chat_message (js "hi") (js "general") (js "bob")) in
  session lobby eve_socket = None
  /\ how r = Js.Returned
  /\ sent r = [(alice_socket, Out.chat_message (js "bob") (Js.lit "hi") 40);
               (bob_socket, Out.chat_message (js "bob") (Js.lit "hi") 40)]
  /\ messages (after r)
     = [{| Message.username := js "bob"; Message.message := js "hi";
           Message.room := Js.lit "general"; Message.timestamp := 40 |}].
Proof. vm_compute. repeat split. Qed.

(** C4, amended.  The chat-message handler never looks at the sender's
    session.  For a body that passes the guard, a non-empty [username] and a
    store that answers, the message is stored and broadcast with the
    [username] of the payload, to the members of the [room] of the payload,
    whether or not the sending socket has joined. *)
Theorem C4_chat_message_uses_payload env st sid body room username :
  acceptable body ->
  Js.truthy username = true ->
  Env.mongo_up env = true ->
  handle env st sid (In.chat_message (Some body) room username)
  = {| after :=
         {| users := users st;
            rooms := rooms st;
            messages :=
              messages st
              ++ [Message.create (Env.now env) username (Some body) room] |};
       sent := io_to (rooms st) room
                 (Out.chat_message username body (Env.now env));
       how := Js.Returned |}.
Proof.
  intros Hb Hu Hup. unfold handle, on_chat_message.
  rewrite (acceptable_guard body Hb).
  rewrite save_ok; [reflexivity | | assumption].
  unfold Message.validate, Message.create; simpl.
  rewrite Hu. now apply acceptable_truthy.
Qed.

Lemma C4_chat_message_uses_payload_witness :
  handle (at_ fresh_id 40) lobby eve_socket
    (In.chat_message (js "hi") (js "general") (js "bob"))
  = {| after :=
         {| users := users lobby;
            rooms := rooms lobby;
            messages :=
              messages lobby
              ++ [Message.create 40 (js "bob") (js "hi") (js "general")] |};
       sent := io_to (rooms lobby) (js "general")
                 (Out.chat_message (js "bob") (Js.lit "hi") 40);
       how := Js.Returned |}.
Proof.
  apply (C4_chat_message_uses_payload (at_ fresh_id 40) lobby eve_socket
           (Js.lit "hi") (js "general") (js "bob")).
  - split; [discriminate | simpl; lia].
  - reflexivity.
  - reflexivity.
Defined.

(** C5 as stated fails: alice and bob are both in "general", the store does
    not answer, and alice's message reaches nobody. *)
Lemma C5_counterexample :
  let r := handle (store_down 50) lobby alice_socket
             (In.chat_message (js "hi") (js "general") (js "alice")) in
  membersOf (rooms lobby) (Js.lit "general") = [alice_socket; bob_socket]
  /\ sent r = []
  /\ how r = Js.Threw Js.MongoError.
Proof. vm_compute. repeat split. Qed.

(** C5, amended.  The broadcast comes after the awaited [save]: when the
    store does not answer, an accepted room message is broadcast to nobody,
    nothing is stored, and the handler's promise is rejected. *)
Theorem C5_store_failure_suppresses_broadcast env st sid body room username :
  acceptable body ->
  Env.mongo_up env = false ->
  let r := handle env st sid (In.chat_message (Some body) room username) in
  sent r = [] /\ after r = st /\ exists e, how r = Js.Threw e.
Proof.
  intros Hb Hdown. unfold handle, on_chat_message.
  rewrite (acceptable_guard body Hb), Hdown.
  destruct (save_down (messages st)
              (Message.create (Env.now env) username (Some body) room))
    as [e ->].
  simpl. eauto.
Qed.

Lemma C5_store_failure_suppresses_broadcast_witness :
  let r := handle (store_down 50) lobby alice_socket
             (In.chat_message (js "hi") (js "general") (js "alice")) in
  sent r = [] /\ after r = lobby /\ exists e, how r = Js.Threw e.
Proof.
  apply (C5_store_failure_suppresses_broadcast (store_down 50) lobby alice_socket
           (Js.lit "hi") (js "general") (js "alice")).
  - split; [discriminate | simpl; lia].
  - reflexivity.
Defined.

(* ------------------------------------------------------------------------- *)
(** ** Disconnect *)


(** The user list sent on disconnect is computed while the leaver's record
    is still in [users], so it lists the leaver. *)
Lemma disconnect_user_list_lists_leaver st sid (u : User.t) target listed :
  session st sid = Some u ->
  In (target, Out.user_list listed) (sent (on_disconnect st sid)) ->
  In u listed.
Proof.
  unfold session, on_disconnect. intros Hu. rewrite Hu. simpl.
  rewrite in_app_iff. intros [H|H].
  - apply in_map_iff in H as (s & E & _). discriminate.
  - apply in_map_iff in H as (s & E & _). injection E as _ <-.
    unfold users_in. apply filter_In. split.
    + now apply obj_get_In with (k := sid).
    + apply str_eqb_refl.
Qed.

(** C6.  The claim: on disconnect the 'user left' notice and the refreshed
    user list reach the remaining members after the leaver's session has been
    removed, so the list does not contain the leaver.  alice disconnects:
    bob, who remains, gets the notice and a user list that still has alice in
    it, although her session is gone once the handler returns. *)
Theorem C6_user_list_after_disconnect_lists_leaver :
  let r := handle (at_ fresh_id 60) lobby alice_socket In.disconnect in
  session (after r) alice_socket = None
  /\ received bob_socket (sent r)
     = [Out.user_left (Js.lit "alice has left the room");
        Out.user_list [alice; bob]]
  /\ received alice_socket (sent r) = [].
Proof. vm_compute. repeat split. Qed.

(* ------------------------------------------------------------------------- *)
(** ** Typing *)

(** C7 as stated fails: alice signals typing twice in "general" and bob
    receives two 'typing' events. *)
Lemma C7_counterexample :
  received bob_socket
    (snd (run lobby
            [(at_ fresh_id 70, alice_socket, In.typing (js "alice") (js "general"));
             (at_ fresh_id 71, alice_socket, In.typing (js "alice") (js "general"))]))
  = [Out.typing (js "alice"); Out.typing (js "alice")].
Proof. vm_compute. reflexivity. Qed.

(** What one typing signal does in a reachable state. *)
Lemma typing_once st sid username room other :
  consistent st ->
  In other (membersOf (rooms st) room) ->
  other <> sid ->
  received other (sent (on_typing st sid username (Some room)))
  = [Out.typing username].
Proof.
  intros [Hnd _] Hin Hne. unfold on_typing, socket_to. simpl.
  apply received_broadcast.
  - apply NoDup_filter. now apply NoDup_membersOf.
  - apply filter_In. split; [assumption|].
    apply negb_true_iff, str_eqb_neq. assumption.
Qed.

(** C7, amended.  The server keeps no typing state and no timer: in any
    state the server can reach, every typing signal is relayed as one 'typing'
    event to each other member of the room the payload names, so two
    consecutive signals give each of them two events; the state is left as it
    was. *)
Theorem C7_every_typing_signal_is_relayed
        (tr : list step) env1 env2 sid username room other :
  let st := fst (run init tr) in
  In other (membersOf (rooms st) room) ->
  other <> sid ->
  let twice := run st [(env1, sid, In.typing username (Some room));
                       (env2, sid, In.typing username (Some room))] in
  received other (snd twice) = [Out.typing username; Out.typing username]
  /\ fst twice = st.
Proof.
  intros st Hin Hne twice.
  assert (consistent st) as Hc by apply consistent_run, consistent_init.
  assert (twice = (st, sent (on_typing st sid username (Some room))
                       ++ sent (on_typing st sid username (Some room))
                       ++ [])) as -> by reflexivity.
  split; [|reflexivity]. unfold snd.
  rewrite !received_app, (typing_once st sid username room other) by assumption.
  reflexivity.
Qed.

Lemma C7_every_typing_signal_is_relayed_witness :
  let twice :=
    run (fst (run init lobby_trace))
      [(at_ fresh_id 70, alice_socket, In.typing (js "alice") (js "general"));
       (at_ fresh_id 71, alice_socket, In.typing (js "alice") (js "general"))] in
  received bob_socket (snd twice)
  = [Out.typing (js "alice"); Out.typing (js "alice")]
  /\ fst twice = fst (run init lobby_trace).
Proof.
  apply (C7_every_typing_signal_is_relayed lobby_trace
           (at_ fresh_id 70) (at_ fresh_id 71) alice_socket
           (js "alice") (Js.lit "general") bob_socket).
  - vm_compute. right. left. reflexivity.
  - vm_compute. discriminate.
Defined.

(* ------------------------------------------------------------------------- *)
(** ** History on join *)

(** The history a join sends goes to the joining socket and is made of
    stored messages whose [room] field is the room that was joined. *)
Lemma join_history_is_of_the_joined_room
      env st sid (username room : Js.value) target listed (m : Message.t) :
  In (target, Out.chat_history listed)
     (sent (handle env st sid (In.join username room))) ->
  In m listed ->
  target = sid /\ In m (messages st) /\ Some (Message.room m) = room.
Proof.
  unfold handle, on_join. intros Hsent Hm.
  destruct username as [[|c un]|];
    try (destruct Hsent as [E|[]]; discriminate).
  destruct room as [[|d rm]|];
    try (destruct Hsent as [E|[]]; discriminate).
  cbn [messages] in Hsent.
  destruct (Message.find (Env.mongo_up env) (messages st) (d :: rm))
    as [e|found] eqn:Hfind; cbn [sent] in Hsent; [contradiction|].
  unfold socket_emit in Hsent. cbn [app] in Hsent.
  destruct Hsent as [E|Hsent].
  - injection E as <- <-. apply in_rev in Hm.
    destruct (find_sound _ _ _ _ _ Hfind Hm) as [Hdb Hr].
    repeat split; try assumption. now rewrite Hr.
  - exfalso. apply in_app_iff in Hsent as [H|H];
      apply in_map_iff in H as (s & E & _); discriminate.
Qed.

(** C9.  The claim: the chat history delivered on join never contains a
    private message, also when the room joined is named like the tag private
    messages are stored under.  alice's private message to bob is stored with
    the [room] field made of "private-" and bob's user id; the join handler
    accepts that string as a room name like any other, so when eve joins the
    room of that name the history she is sent is that private message. *)
Theorem C9_private_message_in_joined_history :
  let r := handle (at_ fresh_id 31) (after whispered) eve_socket
             (In.join (js "eve") (Some (private_tag (Some bob_id)))) in
  messages (after whispered) = [secret]
  /\ Message.room secret = private_tag (Some bob_id)
  /\ how r = Js.Returned
  /\ received eve_socket (sent r)
     = [Out.chat_history [secret];
        Out.user_list
          [{| User.id := fresh_id; User.username := Js.lit "eve";
              User.room := private_tag (Some bob_id) |}]].
Proof. vm_compute. repeat split. Qed.

(* ------------------------------------------------------------------------- *)
(** ** Further properties of the handlers *)

Import Facts.

(** *** Join *)

(** A join whose [username] or [room] is missing or empty is answered with
    'Username and room are required' on the joining socket and changes
    nothing: no session, no room, no query. *)
Theorem join_requires_username_and_room env st sid (username room : Js.value) :
  Js.truthy username = false \/ Js.truthy room = false ->
  handle env st sid (In.join username room)
  = {| after := st;
       sent := [(sid, Out.error (Js.lit "Username and room are required"))];
       how := Js.Returned |}.
Proof.
  unfold handle, on_join.
  destruct username as [[|c un]|], room as [[|d rm]|]; simpl;
    intros [H|H]; try discriminate; reflexivity.
Qed.

Lemma join_requires_username_and_room_witness :
  handle (at_ fresh_id 90) lobby eve_socket (In.join (js "eve") (js ""))
  = {| after := lobby;
       sent := [(eve_socket, Out.error (Js.lit "Username and room are required"))];
       how := Js.Returned |}.
Proof.
  apply (join_requires_username_and_room (at_ fresh_id 90) lobby eve_socket
           (js "eve") (js "")).
  right. reflexivity.
Defined.

(** *** Disconnect *)

Lemma leave_all_twice (a : list (Js.str * Js.str)) (sid : Js.str) :
  leave_all (leave_all a sid) sid = leave_all a sid.
Proof.
  unfold leave_all. induction a as [|p a IH]; simpl; [reflexivity|].
  destruct (negb (Js.str_eqb (fst p) sid)) eqn:E; simpl.
  - now rewrite E, IH.
  - exact IH.
Qed.

(** Once the disconnect handler has run, the socket has no session and is
    in no room, whatever the state was. *)
Theorem disconnect_clears_socket env st sid (r : Js.str) :
  let st' := after (handle env st sid In.disconnect) in
  session st' sid = None /\ ~ In sid (membersOf (rooms st') r).
Proof.
  unfold handle, on_disconnect, session.
  destruct (Js.obj_get sid (users st)) as [u|] eqn:Hu; simpl; split.
  - apply obj_get_delete_same.
  - rewrite membersOf_spec, In_leave_all. simpl. tauto.
  - exact Hu.
  - rewrite membersOf_spec, In_leave_all. simpl. tauto.
Qed.

(** Cleanup is idempotent: a second disconnect of the same socket emits
    nothing and leaves the state as the first one made it. *)
Theorem disconnect_twice_is_silent env1 env2 st sid :
  let st1 := after (handle env1 st sid In.disconnect) in
  handle env2 st1 sid In.disconnect
  = {| after := st1; sent := []; how := Js.Returned |}.
Proof.
  unfold handle, on_disconnect.
  destruct (Js.obj_get sid (users st)) as [u|] eqn:Hu; simpl.
  - rewrite obj_get_delete_same, leave_all_twice. reflexivity.
  - rewrite Hu, leave_all_twice. reflexivity.
Qed.

(** *** The store *)

Lemma handle_appends env st sid ev :
  exists added, messages (after (handle env st sid ev)) = messages st ++ added.
Proof.
  destruct ev; simpl; try (exists []; now rewrite app_nil_r).
  - unfold on_join.
    destruct username as [[|c un]|]; try (exists []; now rewrite app_nil_r).
    destruct room as [[|d rm]|]; try (exists []; now rewrite app_nil_r).
    cbn [messages]. destruct (Message.find _ _ _); exists []; simpl;
      now rewrite app_nil_r.
  - unfold on_chat_message. destruct message as [body|];
      [|exists []; now rewrite app_nil_r].
    destruct (_ || _); [exists []; now rewrite app_nil_r|].
    unfold Message.save.
    destruct (negb (Message.validate _)); [exists []; now rewrite app_nil_r|].
    destruct (negb _); [exists []; now rewrite app_nil_r|].
    eexists; reflexivity.
  - unfold on_private_message.
    destruct (find _ _); [|exists []; now rewrite app_nil_r].
    unfold Message.save.
    destruct (negb (Message.validate _)); [exists []; now rewrite app_nil_r|].
    destruct (negb _); [exists []; now rewrite app_nil_r|].
    eexists; reflexivity.
  - unfold on_disconnect. destruct (Js.obj_get _ _); exists []; simpl;
      now rewrite app_nil_r.
Qed.

(** The server only ever appends to the message collection: after any
    sequence of events the stored messages of before are still there, in the
    same order, at the front. *)
Theorem messages_are_append_only st (tr : list step) :
  exists added, messages (fst (run st tr)) = messages st ++ added.
Proof.
  revert st; induction tr as [|[[env sid] ev] tr IH]; intros st; simpl.
  - exists []. now rewrite app_nil_r.
  - destruct (handle_appends env st sid ev) as [a1 H1].
    destruct (IH (after (handle env st sid ev))) as [a2 H2].
    destruct (run (after (handle env st sid ev)) tr) as [st' out]; simpl in *.
    exists (a1 ++ a2). now rewrite H2, H1, app_assoc.
Qed.

Lemma handle_keeps_valid env st sid ev :
  Forall (fun m => Message.validate m = true) (messages st) ->
  Forall (fun m => Message.validate m = true)
         (messages (after (handle env st sid ev))).
Proof.
  intros H. destruct ev; simpl; try assumption.
  - unfold on_join.
    destruct username as [[|c un]|]; try assumption.
    destruct room as [[|d rm]|]; try assumption.
    cbn [messages]. now destruct (Message.find _ _ _).
  - unfold on_chat_message. destruct message as [body|]; [|assumption].
    destruct (_ || _); [assumption|].
    unfold Message.save.
    destruct (Message.validate _) eqn:Ev; [|assumption].
    destruct (Env.mongo_up env); [|assumption]. simpl.
    apply Forall_app. split; [assumption|].
    constructor; [exact Ev|constructor].
  - unfold on_private_message. destruct (find _ _); [|assumption].
    unfold Message.save.
    destruct (Message.validate _) eqn:Ev; [|assumption].
    destruct (Env.mongo_up env); [|assumption]. simpl.
    apply Forall_app. split; [assumption|].
    constructor; [exact Ev|constructor].
  - unfold on_disconnect. now destruct (Js.obj_get _ _).
Qed.

(** Whatever the clients send, every message the server has stored has a
    non-empty [username] and a non-empty [message]. *)
Theorem stored_messages_are_complete (tr : list step) (m : Message.t) :
  In m (messages (fst (run init tr))) ->
  Js.truthy (Message.username m) = true /\ Js.truthy (Message.message m) = true.
Proof.
  assert (forall st,
             Forall (fun m => Message.validate m = true) (messages st) ->
             Forall (fun m => Message.validate m = true)
                    (messages (fst (run st tr)))) as Hall.
  { induction tr as [|[[env sid] ev] tr IH]; intros st H; simpl; [assumption|].
    specialize (IH _ (handle_keeps_valid env st sid ev H)).
    now destruct (run (after (handle env st sid ev)) tr). }
  intros Hin. specialize (Hall init (Forall_nil _)).
  rewrite Forall_forall in Hall. apply Hall in Hin.
  now apply andb_true_iff in Hin.
Qed.

Lemma stored_messages_are_complete_witness :
  Js.truthy (Message.username secret) = true
  /\ Js.truthy (Message.message secret) = true.
Proof.
  apply (stored_messages_are_complete
           (lobby_trace
            ++ [(at_ fresh_id 30, alice_socket,
                 In.private_message (Some bob_id) (js "secret") (js "alice"))])
           secret).
  vm_compute. left. reflexivity.
Defined.

(** *** Sessions and rooms under messaging *)

(** Chat messages, typing signals and private messages never touch the
    sessions or the room memberships. *)
Theorem messaging_leaves_sessions_and_rooms env st sid (ev : In.t) :
  messaging ev = true ->
  users (after (handle env st sid ev)) = users st
  /\ rooms (after (handle env st sid ev)) = rooms st.
Proof.
  destruct ev; simpl; try discriminate; intros _.
  - unfold on_chat_message. destruct message as [body|]; [|tauto].
    destruct (_ || _); [tauto|]. destruct (Message.save _ _ _); simpl; tauto.
  - tauto.
  - tauto.
  - unfold on_private_message. destruct (find _ _); [|tauto].
    destruct (Message.save _ _ _); simpl; tauto.
Qed.

Lemma messaging_leaves_sessions_and_rooms_witness :
  users (after whispered) = users lobby /\ rooms (after whispered) = rooms lobby.
Proof.
  apply (messaging_leaves_sessions_and_rooms (at_ fresh_id 30) lobby alice_socket
           (In.private_message (Some bob_id) (js "secret") (js "alice"))).
  reflexivity.
Defined.

(* ------------------------------------------------------------------------- *)
(** ** Who receives what *)

Lemma reachable_consistent st : reachable st -> consistent st.
Proof. intros [tr ->]. apply consistent_run, consistent_init. Qed.

Lemma received_io_to (a : list (Js.str * Js.str)) (r s : Js.str) (ev : Out.t) :
  NoDup a ->
  received s (io_to a (Some r) ev) = if in_room a s r then [ev] else [].
Proof.
  intros Hnd. unfold io_to. destruct (in_room a s r) eqn:E.
  - apply received_broadcast; [now apply NoDup_membersOf|].
    now apply membersOf_spec, in_room_spec.
  - apply received_others. rewrite membersOf_spec, <- in_room_spec. congruence.
Qed.

Lemma received_socket_to (a : list (Js.str * Js.str)) (sid r s : Js.str) (ev : Out.t) :
  NoDup a ->
  received s (socket_to a sid (Some r) ev)
  = if in_room a s r && negb (Js.str_eqb s sid) then [ev] else [].
Proof.
  intros Hnd. unfold socket_to.
  destruct (in_room a s r && negb (Js.str_eqb s sid)) eqn:E.
  - apply andb_true_iff in E as [E1 E2].
    apply received_broadcast.
    + apply NoDup_filter. now apply NoDup_membersOf.
    + apply filter_In. split; [|assumption].
      now apply membersOf_spec, in_room_spec.
  - apply received_others. rewrite filter_In, membersOf_spec, <- in_room_spec.
    intros [H1 H2]. rewrite H1, H2 in E. discriminate.
Qed.

Lemma in_room_socket_join (a : list (Js.str * Js.str)) (sid r s q : Js.str) :
  in_room (socket_join a sid r) s q
  = in_room a s q || (Js.str_eqb s sid && Js.str_eqb q r).
Proof.
  apply eq_true_iff_eq.
  rewrite orb_true_iff, andb_true_iff, !in_room_spec, In_socket_join, !str_eqb_eq.
  intuition congruence.
Qed.

Lemma in_room_leave_all (a : list (Js.str * Js.str)) (sid s q : Js.str) :
  in_room (leave_all a sid) s q = in_room a s q && negb (Js.str_eqb s sid).
Proof.
  apply eq_true_iff_eq.
  rewrite andb_true_iff, negb_true_iff, !in_room_spec, In_leave_all, str_eqb_neq.
  reflexivity.
Qed.

(** A valid join, with the store answering, in a state the server can be
    in: the joining socket receives the history of the room and then the
    room's user list; every other socket already in the room receives the
    'user joined' notice and then the same user list; nobody else receives
    anything.  The user list is the one after the join. *)
Theorem join_announcements env st sid (username room : Js.value) :
  reachable st ->
  Js.truthy username = true ->
  Js.truthy room = true ->
  Env.mongo_up env = true ->
  let r := handle env st sid (In.join username room) in
  let listing :=
    Out.user_list (users_in (users (after r)) (Js.to_string room)) in
  received sid (sent r)
  = [Out.chat_history
       (rev (Message.recent (messages st) (Js.to_string room)));
     listing]
  /\ forall other,
       other <> sid ->
       received other (sent r)
       = if in_room (rooms st) other (Js.to_string room)
         then [Out.user_joined
                 (Js.to_string username ++ Js.lit " has joined the room");
               listing]
         else [].
Proof.
  intros Hreach Hu Hr Hup.
  apply reachable_consistent in Hreach as [Hnd _].
  apply truthy_some in Hu as (c & un & ->).
  apply truthy_some in Hr as (d & rm & ->).
  unfold handle, on_join. cbn [messages]. rewrite Hup, find_up.
  cbn [after sent users rooms Js.to_string].
  pose proof (NoDup_socket_join (rooms st) sid (d :: rm) Hnd) as Hnd1.
  split.
  - rewrite !received_app, received_socket_to, received_io_to by assumption.
    rewrite in_room_socket_join, !str_eqb_refl, orb_true_r.
    cbn. rewrite str_eqb_refl. reflexivity.
  - intros other Hne.
    rewrite !received_app, received_socket_to, received_io_to by assumption.
    rewrite in_room_socket_join.
    assert (Js.str_eqb other sid = false) as Eo by now apply str_eqb_neq.
    assert (Js.str_eqb sid other = false) as Eo'
        by (apply str_eqb_neq; congruence).
    rewrite Eo. cbn. rewrite Eo'. cbn.
    rewrite orb_false_r, andb_true_r.
    now destruct (in_room (rooms st) other (d :: rm)).
Qed.

Lemma join_announcements_witness :
  let r := handle (at_ fresh_id 91) lobby eve_socket
             (In.join (js "eve") (js "general")) in
  let listing :=
    Out.user_list (users_in (users (after r)) (Js.lit "general")) in
  received eve_socket (sent r)
  = [Out.chat_history (rev (Message.recent (messages lobby) (Js.lit "general")));
     listing]
  /\ forall other,
       other <> eve_socket ->
       received other (sent r)
       = if in_room (rooms lobby) other (Js.lit "general")
         then [Out.user_joined (Js.lit "eve" ++ Js.lit " has joined the room");
               listing]
         else [].
Proof.
  apply (join_announcements (at_ fresh_id 91) lobby eve_socket
           (js "eve") (js "general")).
  - exists lobby_trace. reflexivity.
  - reflexivity.
  - reflexivity.
  - reflexivity.
Defined.

(** An accepted room message, in a state the server can be in: each socket
    in the room the payload names receives the message exactly once, the
    sender too if it is in that room, and no socket outside the room receives
    anything. *)
Theorem room_message_reaches_each_member_once
        env st sid (body room : Js.str) (username : Js.value) (s : Js.str) :
  reachable st ->
  acceptable body ->
  Js.truthy username = true ->
  Env.mongo_up env = true ->
  received s
    (sent (handle env st sid
             (In.chat_message (Some body) (Some room) username)))
  = if in_room (rooms st) s room
    then [Out.chat_message username body (Env.now env)]
    else [].
Proof.
  intros Hreach Hb Hu Hup.
  apply reachable_consistent in Hreach as [Hnd _].
  unfold handle, on_chat_message.
  rewrite (acceptable_guard body Hb), save_ok; try assumption.
  - cbn [sent]. now apply received_io_to.
  - unfold Message.validate, Message.create; simpl.
    rewrite Hu. now apply acceptable_truthy.
Qed.

Lemma room_message_reaches_each_member_once_witness :
  received alice_socket
    (sent (handle (at_ fresh_id 92) lobby alice_socket
             (In.chat_message (js "hi") (js "general") (js "alice"))))
  = if in_room (rooms lobby) alice_socket (Js.lit "general")
    then [Out.chat_message (js "alice") (Js.lit "hi") 92]
    else [].
Proof.
  apply (room_message_reaches_each_member_once (at_ fresh_id 92) lobby
           alice_socket (Js.lit "hi") (Js.lit "general") (js "alice")
           alice_socket).
  - exists lobby_trace. reflexivity.
  - split; [discriminate | simpl; lia].
  - reflexivity.
  - reflexivity.
Defined.

(** A chat message whose body passes the guard but whose [username] is
    missing or empty is dropped without a word: the schema rejects the
    document, nothing is stored, nothing is broadcast and no error event is
    sent back. *)
Theorem room_message_without_username_is_dropped
        env st sid (body : Js.str) (room username : Js.value) :
  acceptable body ->
  Js.truthy username = false ->
  handle env st sid (In.chat_message (Some body) room username)
  = {| after := st; sent := []; how := Js.Threw Js.ValidationError |}.
Proof.
  intros Hb Hu. unfold handle, on_chat_message.
  rewrite (acceptable_guard body Hb).
  unfold Message.save, Message.validate, Message.create; simpl.
  now rewrite Hu.
Qed.

Lemma room_message_without_username_is_dropped_witness :
  handle (at_ fresh_id 93) lobby alice_socket
    (In.chat_message (js "hi") (js "general") Js.undefined)
  = {| after := lobby; sent := []; how := Js.Threw Js.ValidationError |}.
Proof.
  apply (room_message_without_username_is_dropped (at_ fresh_id 93) lobby
           alice_socket (Js.lit "hi") (js "general") Js.undefined).
  - split; [discriminate | simpl; lia].
  - reflexivity.
Defined.

(** Typing and stop-typing signals, in a state the server can be in: each
    socket of the named room other than the signalling one receives the event
    once; the signalling socket and the sockets outside the room receive
    nothing. *)
Theorem typing_signals_reach_the_others_only
        env st sid (username : Js.value) (room s : Js.str) :
  reachable st ->
  received s (sent (handle env st sid (In.typing username (Some room))))
  = (if in_room (rooms st) s room && negb (Js.str_eqb s sid)
     then [Out.typing username] else [])
  /\ received s (sent (handle env st sid (In.stop_typing (Some room))))
     = (if in_room (rooms st) s room && negb (Js.str_eqb s sid)
        then [Out.stop_typing] else []).
Proof.
  intros Hreach. apply reachable_consistent in Hreach as [Hnd _].
  split; cbn [handle on_typing on_stop_typing sent];
    now apply received_socket_to.
Qed.

Lemma typing_signals_reach_the_others_only_witness :
  received alice_socket
    (sent (handle (at_ fresh_id 94) lobby alice_socket
             (In.typing (js "alice") (js "general"))))
  = (if in_room (rooms lobby) alice_socket (Js.lit "general")
        && negb (Js.str_eqb alice_socket alice_socket)
     then [Out.typing (js "alice")] else [])
  /\ received alice_socket
       (sent (handle (at_ fresh_id 94) lobby alice_socket
                (In.stop_typing (js "general"))))
     = (if in_room (rooms lobby) alice_socket (Js.lit "general")
           && negb (Js.str_eqb alice_socket alice_socket)
        then [Out.stop_typing] else []).
Proof.
  apply (typing_signals_reach_the_others_only (at_ fresh_id 94) lobby
           alice_socket (js "alice") (Js.lit "general") alice_socket).
  exists lobby_trace. reflexivity.
Defined.

(** The disconnect of a socket with a session, in a state the server can be
    in: each other socket of the session's room receives the 'user left'
    notice and then a user list; the leaving socket and the sockets outside
    the room receive nothing. *)
Theorem disconnect_notifies_the_room env st sid (u : User.t) (s : Js.str) :
  reachable st ->
  session st sid = Some u ->
  received s (sent (handle env st sid In.disconnect))
  = if in_room (rooms st) s (User.room u) && negb (Js.str_eqb s sid)
    then [Out.user_left (User.username u ++ Js.lit " has left the room");
          Out.user_list (users_in (users st) (User.room u))]
    else [].
Proof.
  intros Hreach Hu. apply reachable_consistent in Hreach as [Hnd _].
  unfold handle, on_disconnect. unfold session in Hu. rewrite Hu. cbn [sent].
  pose proof (NoDup_leave_all (rooms st) sid Hnd) as Hnd1.
  rewrite received_app, received_socket_to, received_io_to by assumption.
  rewrite in_room_leave_all.
  destruct (in_room (rooms st) s (User.room u)); simpl; [|reflexivity].
  now destruct (negb (Js.str_eqb s sid)).
Qed.

Lemma disconnect_notifies_the_room_witness :
  received bob_socket
    (sent (handle (at_ fresh_id 95) lobby alice_socket In.disconnect))
  = if in_room (rooms lobby) bob_socket (User.room alice)
       && negb (Js.str_eqb bob_socket alice_socket)
    then [Out.user_left (User.username alice ++ Js.lit " has left the room");
          Out.user_list (users_in (users lobby) (User.room alice))]
    else [].
Proof.
  apply (disconnect_notifies_the_room (at_ fresh_id 95) lobby alice_socket
           alice bob_socket).
  - exists lobby_trace. reflexivity.
  - reflexivity.
Defined.

(* ------------------------------------------------------------------------- *)
(** ** The history a join sends: [rev (Message.recent db room)] *)

Lemma insert_desc_sorted (m : Message.t) (l : list Message.t) :
  StronglySorted (fun a b => not_newer b a) l ->
  StronglySorted (fun a b => not_newer b a) (Message.insert_desc m l).
Proof.
  unfold not_newer.
  induction 1 as [|x l Hs IH Hall]; simpl.
  - repeat constructor.
  - destruct (Message.timestamp x <=? Message.timestamp m)%N eqn:E.
    + apply N.leb_le in E. constructor.
      * now constructor.
      * constructor; [assumption|].
        rewrite Forall_forall in *. intros y Hy. specialize (Hall y Hy). lia.
    + apply N.leb_gt in E. constructor; [assumption|].
      rewrite Forall_forall in *. intros y Hy.
      apply In_insert_desc in Hy as [->|Hy]; [lia | now apply Hall].
Qed.

Lemma sort_desc_sorted (l : list Message.t) :
  StronglySorted (fun a b => not_newer b a) (Message.sort_desc l).
Proof.
  induction l as [|m l IH]; simpl; [constructor | now apply insert_desc_sorted].
Qed.

Lemma insert_desc_perm (m : Message.t) (l : list Message.t) :
  Permutation (Message.insert_desc m l) (m :: l).
Proof.
  induction l as [|x l IH]; simpl; [reflexivity|].
  destruct (Message.timestamp x <=? Message.timestamp m)%N; [reflexivity|].
  rewrite IH. apply perm_swap.
Qed.

Lemma sort_desc_perm (l : list Message.t) : Permutation (Message.sort_desc l) l.
Proof.
  induction l as [|m l IH]; simpl; [reflexivity|].
  rewrite insert_desc_perm. now constructor.
Qed.

Section SortedLists.

Context {A : Type}.

Lemma StronglySorted_split (R : A -> A -> Prop) (l1 l2 : list A) :
  StronglySorted R (l1 ++ l2) ->
  StronglySorted R l1 /\ forall a b, In a l1 -> In b l2 -> R a b.
Proof.
  induction l1 as [|x l1 IH]; simpl; intros H.
  - split; [constructor | contradiction].
  - apply StronglySorted_inv in H as [Hs Hall].
    destruct (IH Hs) as [H1 H2]. rewrite Forall_forall in Hall. split.
    + constructor; [assumption|].
      rewrite Forall_forall. intros y Hy. apply Hall, in_or_app. now left.
    + intros a b [<-|Ha] Hb; [apply Hall, in_or_app; now right | now apply H2].
Qed.

Lemma StronglySorted_snoc (R : A -> A -> Prop) (l : list A) (x : A) :
  StronglySorted R l -> Forall (fun y => R y x) l -> StronglySorted R (l ++ [x]).
Proof.
  induction 1 as [|y l Hs IH Hall]; simpl; intros Hx.
  - repeat constructor.
  - inversion Hx as [|? ? Hyx Hlx]; subst. constructor; [now apply IH|].
    apply Forall_app. split; [assumption | now repeat constructor].
Qed.

Lemma StronglySorted_rev (R : A -> A -> Prop) (l : list A) :
  StronglySorted R l -> StronglySorted (fun a b => R b a) (rev l).
Proof.
  induction 1 as [|x l Hs IH Hall]; simpl; [constructor|].
  apply StronglySorted_snoc; [assumption|].
  rewrite Forall_forall in *. intros y Hy. apply Hall. now apply in_rev.
Qed.

End SortedLists.

(** The history is in chronological order, oldest first, and holds at most
    fifty messages. *)
Theorem history_is_oldest_first (db : list Message.t) (r : Js.str) :
  StronglySorted not_newer (rev (Message.recent db r))
  /\ List.length (rev (Message.recent db r)) <= 50.
Proof.
  split.
  - apply (StronglySorted_rev (fun a b => not_newer b a)).
    unfold Message.recent.
    pose proof (sort_desc_sorted
                  (filter (fun m => Js.str_eqb (Message.room m) r) db)) as Hs.
    rewrite <- (firstn_skipn 50) in Hs.
    now apply StronglySorted_split in Hs.
  - rewrite length_rev. unfold Message.recent. apply firstn_le_length.
Qed.

(** When the room has at most fifty stored messages the history holds all
    of them, each as often as it is stored. *)
Theorem history_is_complete_when_short (db : list Message.t) (r : Js.str) :
  List.length (of_room db r) <= 50 ->
  Permutation (rev (Message.recent db r)) (of_room db r).
Proof.
  intros Hlen. rewrite <- Permutation_rev. unfold Message.recent.
  fold (of_room db r). rewrite firstn_all2; [apply sort_desc_perm|].
  now rewrite (Permutation_length (sort_desc_perm (of_room db r))).
Qed.

Lemma history_is_complete_when_short_witness :
  Permutation (rev (Message.recent archive (Js.lit "general")))
              (of_room archive (Js.lit "general")).
Proof.
  apply (history_is_complete_when_short archive (Js.lit "general")).
  vm_compute. lia.
Defined.

(** When the room has more, the history keeps the newest: a stored message
    of the room that is left out is not newer than any message kept. *)
Theorem history_keeps_the_newest (db : list Message.t) (r : Js.str)
        (kept dropped : Message.t) :
  In kept (Message.recent db r) ->
  In dropped (of_room db r) ->
  ~ In dropped (Message.recent db r) ->
  not_newer dropped kept.
Proof.
  unfold Message.recent. fold (of_room db r). intros Hk Hd Hnot.
  pose proof (sort_desc_sorted (of_room db r)) as Hs.
  rewrite <- (firstn_skipn 50) in Hs.
  apply StronglySorted_split in Hs as [_ Hs]. apply Hs; [assumption|].
  apply In_sort_desc in Hd. rewrite <- (firstn_skipn 50) in Hd.
  apply in_app_or in Hd as [Hd|Hd]; [contradiction | assumption].
Qed.

Lemma history_keeps_the_newest_witness : not_newer (numbered 1) (numbered 51).
Proof.
  apply (history_keeps_the_newest busy (Js.lit "general")
           (numbered 51) (numbered 1)).
  - vm_compute. left. reflexivity.
  - vm_compute. left. reflexivity.
  - vm_compute. intuition discriminate.
Defined.

Lemma session_room_is_joined_witness :
  In alice_socket
     (membersOf (rooms (fst (run init lobby_trace))) (User.room alice)).
Proof.
  apply (session_room_is_joined lobby_trace alice_socket alice).
  reflexivity.
Defined.

(* ------------------------------------------------------------------------- *)
(** ** The user list *)

Lemma obj_set_keys_new {V} (o : list (Js.str * V)) (k : Js.str) (v : V) :
  Js.obj_get k o = None -> Js.obj_set k v o = o ++ [(k, v)].
Proof.
  induction o as [|[k' v'] o IH]; simpl; [reflexivity|].
  destruct (Js.str_eqb k' k); [discriminate|]. intros H. now rewrite IH.
Qed.

Lemma obj_get_none_keys {V} (o : list (Js.str * V)) (k : Js.str) :
  Js.obj_get k o = None <-> ~ In k (map fst o).
Proof.
  induction o as [|[k' v'] o IH]; simpl; [tauto|].
  destruct (Js.str_eqb k' k) eqn:E.
  - apply str_eqb_eq in E. subst. split; [discriminate | tauto].
  - apply str_eqb_neq in E. rewrite IH. tauto.
Qed.

Lemma obj_set_unique {V} (o : list (Js.str * V)) (k : Js.str) (v : V) :
  NoDup (map fst o) -> NoDup (map fst (Js.obj_set k v o)).
Proof.
  intros H. destruct (Js.obj_get k o) as [v0|] eqn:E.
  - now rewrite (obj_set_keys o k v v0 E).
  - rewrite (obj_set_keys_new o k v E), map_app. simpl.
    apply NoDup_app; [assumption | repeat constructor; simpl; tauto |].
    intros a Ha [<-|[]]. now apply obj_get_none_keys in E.
Qed.

Lemma obj_delete_unique {V} (o : list (Js.str * V)) (k : Js.str) :
  NoDup (map fst o) -> NoDup (map fst (Js.obj_delete k o)).
Proof.
  unfold Js.obj_delete. induction o as [|[k' v'] o IH]; simpl; [tauto|].
  intros H. inversion H as [|? ? Hnin Hnd]; subst.
  destruct (negb (Js.str_eqb k' k)); simpl; [|now apply IH].
  constructor; [|now apply IH].
  rewrite in_map_iff. intros [[k0 v0] [E Hin]]. simpl in E. subst k0.
  apply filter_In in Hin as [Hin _]. apply Hnin.
  apply in_map_iff. now exists (k', v0).
Qed.

Lemma handle_keeps_unique env st sid ev :
  NoDup (map fst (users st)) ->
  NoDup (map fst (users (after (handle env st sid ev)))).
Proof.
  intros H. destruct ev; simpl; try assumption.
  - unfold on_join.
    destruct username as [[|c un]|]; try assumption.
    destruct room as [[|d rm]|]; try assumption.
    cbn [messages]. destruct (Message.find _ _ _); simpl;
      now apply obj_set_unique.
  - unfold on_chat_message. destruct message as [body|]; [|assumption].
    destruct (_ || _); [assumption|]. now destruct (Message.save _ _ _).
  - unfold on_private_message. destruct (find _ _); [|assumption].
    now destruct (Message.save _ _ _).
  - unfold on_disconnect. destruct (Js.obj_get _ _); simpl;
      [now apply obj_delete_unique | assumption].
Qed.

Lemma reachable_unique st : reachable st -> NoDup (map fst (users st)).
Proof.
  intros [tr ->].
  assert (forall st0, NoDup (map fst (users st0)) ->
                      NoDup (map fst (users (fst (run st0 tr))))) as H.
  { induction tr as [|[[env sid] ev] tr IH]; intros st0 H0; simpl; [assumption|].
    specialize (IH _ (handle_keeps_unique env st0 sid ev H0)).
    now destruct (run (after (handle env st0 sid ev)) tr). }
  apply H. constructor.
Qed.

Lemma In_values_iff {V} (o : list (Js.str * V)) (v : V) :
  NoDup (map fst o) ->
  In v (Js.Object_values o) <-> exists k, Js.obj_get k o = Some v.
Proof.
  intros Hnd. split; [|intros [k H]; now apply obj_get_In with (k := k)].
  unfold Js.Object_values.
  induction o as [|[k' v'] o IH]; simpl; [tauto|].
  inversion Hnd as [|? ? Hnin Hnd']; subst.
  intros [<-|Hin].
  - exists k'. now rewrite str_eqb_refl.
  - destruct (IH Hnd' Hin) as [k Hk]. exists k.
    destruct (Js.str_eqb k' k) eqn:E; [|assumption].
    apply str_eqb_eq in E. subst k'. exfalso.
    assert (Js.obj_get k o <> None) as Hne by congruence.
    apply Hne. now apply obj_get_none_keys.
Qed.

(** The user list computed for a room, in a state the server can be in,
    lists exactly the sessions whose room it is. *)
Theorem user_list_is_the_sessions_of_the_room st (r : Js.str) (u : User.t) :
  reachable st ->
  In u (users_in (users st) r)
  <-> (exists s, session st s = Some u) /\ User.room u = r.
Proof.
  intros Hreach. unfold users_in, session.
  rewrite filter_In, (In_values_iff _ _ (reachable_unique st Hreach)), str_eqb_eq.
  reflexivity.
Qed.

Lemma user_list_is_the_sessions_of_the_room_witness :
  In bob (users_in (users lobby) (Js.lit "general"))
  <-> (exists s, session lobby s = Some bob) /\ User.room bob = Js.lit "general".
Proof.
  apply (user_list_is_the_sessions_of_the_room lobby (Js.lit "general") bob).
  exists lobby_trace. reflexivity.
Defined.

(* ------------------------------------------------------------------------- *)
(** ** Private messages: the refusals *)

(** A private message addressed to a user id that no session carries (a
    missing [toUserId] included) is answered with 'User not found' on the
    sending socket; nothing is stored and nothing else is sent. *)
Theorem private_message_to_unknown_user
        env st sid (toUserId message username : Js.value) :
  (forall u, In u (Js.Object_values (users st)) -> Some (User.id u) <> toUserId) ->
  handle env st sid (In.private_message toUserId message username)
  = {| after := st;
       sent := [(sid, Out.error (Js.lit "User not found"))];
       how := Js.Returned |}.
Proof.
  intros Hnone. unfold handle, on_private_message.
  destruct (find _ _) as [u|] eqn:E; [|reflexivity].
  apply find_some in E as [Hin Heq]. exfalso. apply (Hnone u Hin).
  destruct toUserId as [t|]; simpl in Heq; [|discriminate].
  apply str_eqb_eq in Heq. congruence.
Qed.

Lemma private_message_to_unknown_user_witness :
  handle (at_ fresh_id 96) lobby alice_socket
    (In.private_message (Some fresh_id) (js "psst") (js "alice"))
  = {| after := lobby;
       sent := [(alice_socket, Out.error (Js.lit "User not found"))];
       how := Js.Returned |}.
Proof.
  apply (private_message_to_unknown_user (at_ fresh_id 96) lobby alice_socket
           (Some fresh_id) (js "psst") (js "alice")).
  vm_compute. intuition (subst; discriminate).
Defined.

(** The private-message handler has no guard of its own on the body: when
    the recipient exists but [message] or [username] is missing or empty, the
    schema rejects the document and the sender gets no answer at all, neither
    a confirmation nor an error. *)
Theorem private_message_without_body_is_dropped
        env st sid (toUserId message username : Js.value) (u : User.t) :
  In u (Js.Object_values (users st)) ->
  Some (User.id u) = toUserId ->
  Js.truthy message = false \/ Js.truthy username = false ->
  handle env st sid (In.private_message toUserId message username)
  = {| after := st; sent := []; how := Js.Threw Js.ValidationError |}.
Proof.
  intros Hin Hid Hbad. unfold handle, on_private_message.
  destruct (find _ _) as [recipient|] eqn:E.
  - unfold Message.save, Message.validate, Message.create; simpl.
    destruct Hbad as [-> | ->]; [rewrite andb_false_r|]; reflexivity.
  - exfalso. apply (find_none _ _ E) in Hin. subst toUserId. simpl in Hin.
    now rewrite str_eqb_refl in Hin.
Qed.

Lemma private_message_without_body_is_dropped_witness :
  handle (at_ fresh_id 97) lobby alice_socket
    (In.private_message (Some bob_id) (js "") (js "alice"))
  = {| after := lobby; sent := []; how := Js.Threw Js.ValidationError |}.
Proof.
  apply (private_message_without_body_is_dropped (at_ fresh_id 97) lobby
           alice_socket (Some bob_id) (js "") (js "alice") bob).
  - vm_compute. right. left. reflexivity.
  - reflexivity.
  - left. reflexivity.
Defined.

(* ------------------------------------------------------------------------- *)
(** ** A whole visit *)

Lemma leave_all_socket_join (a : list (Js.str * Js.str)) (sid r : Js.str) :
  leave_all (socket_join a sid r) sid = leave_all a sid.
Proof.
  unfold socket_join. destruct (in_room a sid r); [reflexivity|].
  unfold leave_all. rewrite filter_app. simpl.
  rewrite str_eqb_refl. simpl. apply app_nil_r.
Qed.

Lemma leave_all_absent (a : list (Js.str * Js.str)) (sid : Js.str) :
  (forall r, ~ In (sid, r) a) -> leave_all a sid = a.
Proof.
  unfold leave_all. induction a as [|[s q] a IH]; simpl; intros H; [reflexivity|].
  destruct (Js.str_eqb s sid) eqn:E; simpl.
  - apply str_eqb_eq in E. subst s. exfalso. apply (H q). now left.
  - f_equal. apply IH. intros r Hr. apply (H r). now right.
Qed.

Lemma obj_delete_absent {V} (o : list (Js.str * V)) (k : Js.str) :
  Js.obj_get k o = None -> Js.obj_delete k o = o.
Proof.
  unfold Js.obj_delete. induction o as [|[k' v'] o IH]; simpl; [reflexivity|].
  destruct (Js.str_eqb k' k); [discriminate|]. simpl. intros H. now rewrite IH.
Qed.

Lemma obj_delete_set {V} (o : list (Js.str * V)) (k : Js.str) (v : V) :
  Js.obj_get k o = None -> Js.obj_delete k (Js.obj_set k v o) = o.
Proof.
  intros H. rewrite (obj_set_keys_new o k v H).
  unfold Js.obj_delete. rewrite filter_app. simpl.
  rewrite str_eqb_refl. simpl. rewrite app_nil_r.
  now apply obj_delete_absent.
Qed.

(** A socket that connects, joins (validly or not, with the store answering
    or not) and disconnects leaves the server exactly as it found it: the
    other sessions, the rooms and the stored messages are the same. *)
Theorem visit_leaves_no_trace
        env1 env2 env3 st sid (username room : Js.value) :
  session st sid = None ->
  (forall r, ~ In (sid, r) (rooms st)) ->
  fst (run st [(env1, sid, In.connection);
               (env2, sid, In.join username room);
               (env3, sid, In.disconnect)])
  = st.
Proof.
  unfold session. intros Hs Hr.
  assert (fst (run st [(env1, sid, In.connection);
                       (env2, sid, In.join username room);
                       (env3, sid, In.disconnect)])
          = after (on_disconnect
                     (after (on_join env2 (after (on_connection st sid)) sid
                               username room)) sid)) as -> by reflexivity.
  destruct st as [us rs ms]. cbn [users rooms] in Hs, Hr.
  assert (forall st1,
             users st1 = us -> messages st1 = ms ->
             leave_all (rooms st1) sid = rs ->
             after (on_disconnect st1 sid) = mkState us rs ms) as Hquiet.
  { intros [us1 rs1 ms1]; cbn [users rooms messages]; intros -> -> Hl.
    unfold on_disconnect; cbn [users rooms messages]. rewrite Hs.
    cbn [after]. now rewrite Hl. }
  assert (leave_all (socket_join rs sid sid) sid = rs) as Hrs
      by now rewrite leave_all_socket_join, leave_all_absent.
  unfold on_connection, on_join; cbn [after users rooms messages].
  destruct username as [[|c un]|]; try now apply Hquiet.
  destruct room as [[|d rm]|]; try now apply Hquiet.
  destruct (Message.find _ _ _); cbn [after];
    unfold on_disconnect; cbn [users rooms messages];
    rewrite obj_get_set_same; cbn [after];
    now rewrite obj_delete_set, leave_all_socket_join, Hrs.
Qed.

Lemma visit_leaves_no_trace_witness :
  fst (run lobby [(at_ fresh_id 98, carol_socket, In.connection);
                  (at_ fresh_id 99, carol_socket,
                   In.join (js "carol") (js "general"));
                  (at_ fresh_id 100, carol_socket, In.disconnect)])
  = lobby.
Proof.
  apply (visit_leaves_no_trace (at_ fresh_id 98) (at_ fresh_id 99)
           (at_ fresh_id 100) lobby carol_socket (js "carol") (js "general")).
  - reflexivity.
  - intros r. vm_compute. intuition discriminate.
Defined.

(* ------------------------------------------------------------------------- *)
(** ** Blank bodies *)

Lemma trimStart_blank (s : Js.str) :
  Forall (fun c => Js.is_white_space c = true) s -> Js.trimStart s = [].
Proof. induction 1 as [|c s Hc _ IH]; simpl; [reflexivity | now rewrite Hc]. Qed.

Lemma trimStart_nonempty (s : Js.str) : Js.trimStart s <> [] -> s <> [].
Proof. destruct s; [simpl; congruence | discriminate]. Qed.

Lemma trim_nonempty (s : Js.str) : Js.trim s <> [] -> s <> [].
Proof.
  unfold Js.trim, Js.trimEnd. intros H E. subst s. now apply H.
Qed.

(** A message made only of white space (spaces, tabs, line breaks, ...) or
    of nothing at all is refused with 'Invalid message'; nothing is stored or
    broadcast. *)
Theorem blank_message_is_refused env st sid (body : Js.str) (room username : Js.value) :
  Forall (fun c => Js.is_white_space c = true) body ->
  handle env st sid (In.chat_message (Some body) room username)
  = {| after := st;
       sent := [(sid, Out.error (Js.lit "Invalid message"))];
       how := Js.Returned |}.
Proof.
  intros Hb. unfold handle, on_chat_message, Js.trim, Js.trimEnd.
  now rewrite (trimStart_blank body Hb).
Qed.

Lemma blank_message_is_refused_witness :
  handle (at_ fresh_id 101) lobby alice_socket
    (In.chat_message (Some [32; 9; 10; 160]%N) (js "general") (js "alice"))
  = {| after := lobby;
       sent := [(alice_socket, Out.error (Js.lit "Invalid message"))];
       how := Js.Returned |}.
Proof.
  apply (blank_message_is_refused (at_ fresh_id 101) lobby alice_socket
           [32; 9; 10; 160]%N (js "general") (js "alice")).
  repeat constructor.
Defined.

(* ------------------------------------------------------------------------- *)
(** ** The client's forms against the server's guards *)

Lemma no_error_in_broadcast (l : list Js.str) (ev : Out.t) (d : delivery) :
  is_error ev = false -> In d (map (fun s => (s, ev)) l) -> is_error (snd d) = false.
Proof. intros He Hd. apply in_map_iff in Hd as (s & <- & _). exact He. Qed.

(** Whatever the join form submits, the server accepts: no event the server
    emits in reply is an 'error', and once both events are handled the socket
    has a session under the name and the room typed into the form. *)
Theorem prompt_join_is_accepted
        env1 env2 st sid (username room : Js.str) :
  Client.handleSubmit username room <> [] ->
  let tr := from sid (combine [env1; env2] (Client.handleSubmit username room)) in
  session (fst (run st tr)) sid
  = Some {| User.id := Env.uuid env2; User.username := username;
            User.room := room |}
  /\ forall d, In d (snd (run st tr)) -> is_error (snd d) = false.
Proof.
  unfold Client.handleSubmit.
  destruct (Js.truthy (Some (Js.trim username))) eqn:Eu; [|simpl; congruence].
  destruct (Js.truthy (Some (Js.trim room))) eqn:Er; [|simpl; congruence].
  intros _.
  assert (username <> []) as Hu
      by (apply trim_nonempty; destruct (Js.trim username); [discriminate | congruence]).
  assert (room <> []) as Hr
      by (apply trim_nonempty; destruct (Js.trim room); [discriminate | congruence]).
  destruct username as [|c un]; [congruence|].
  destruct room as [|d0 rm]; [congruence|].
  cbn [andb combine from map fst snd].
  set (st1 := after (on_connection st sid)).
  change (run st _)
    with (after (on_join env2 st1 sid (Some (c :: un)) (Some (d0 :: rm))),
          sent (on_join env2 st1 sid (Some (c :: un)) (Some (d0 :: rm))) ++ []).
  cbn [fst snd]. rewrite app_nil_r. unfold on_join. cbn [messages].
  destruct (Message.find _ _ _); cbn [after sent]; unfold session;
    cbn [users]; (split; [apply obj_get_set_same|]).
  - contradiction.
  - intros d Hd. cbn [socket_emit app] in Hd. destruct Hd as [<-|Hd]; [reflexivity|].
    apply in_app_or in Hd as [Hd|Hd];
      now apply no_error_in_broadcast in Hd.
Qed.

Lemma prompt_join_is_accepted_witness :
  let tr := from carol_socket
              (combine [at_ fresh_id 102; at_ fresh_id 103]
                       (Client.handleSubmit (Js.lit "carol") (Js.lit "general"))) in
  session (fst (run lobby tr)) carol_socket
  = Some {| User.id := fresh_id; User.username := Js.lit "carol";
            User.room := Js.lit "general" |}
  /\ forall d, In d (snd (run lobby tr)) -> is_error (snd d) = false.
Proof.
  apply (prompt_join_is_accepted (at_ fresh_id 102) (at_ fresh_id 103) lobby
           carol_socket (Js.lit "carol") (Js.lit "general")).
  vm_compute. discriminate.
Defined.

(* ------------------------------------------------------------------------- *)
(** ** Handlers suspended at their [await] *)

(** A handler that nothing interrupts, its store operation answering as
    [Env.mongo_up] says, does what [handle] says: the two parts of [Loop] are
    the two halves of the same code. *)
Lemma start_then_resume env st sid (ev : In.t) :
  handle env st sid ev
  = let s := Loop.start env st sid ev in
    match Loop.next s with
    | Loop.finished h =>
        {| after := Loop.state_now s; sent := Loop.emitted s; how := h |}
    | Loop.awaiting k =>
        let r := Loop.resume (Env.mongo_up env) (Loop.state_now s) k in
        {| after := after r; sent := Loop.emitted s ++ sent r; how := how r |}
    end.
Proof.
  destruct ev; cbn [handle Loop.start].
  - reflexivity.
  - unfold on_join.
    destruct username as [[|c un]|]; try reflexivity.
    destruct room as [[|d rm]|]; try reflexivity.
    cbn [Loop.next Loop.state_now Loop.emitted Loop.resume messages users rooms].
    now destruct (Message.find _ _ _).
  - unfold on_chat_message. destruct message as [body|]; [|reflexivity].
    destruct (_ || _); [reflexivity|].
    cbn [Loop.next Loop.state_now Loop.emitted Loop.resume].
    now destruct (Message.save _ _ _).
  - reflexivity.
  - reflexivity.
  - unfold on_private_message. destruct (find _ _); [|reflexivity].
    cbn [Loop.next Loop.state_now Loop.emitted Loop.resume].
    now destruct (Message.save _ _ _).
  - unfold on_disconnect. now destruct (Js.obj_get _ _).
Qed.

Lemma start_chat_message env st sid (body : Js.str) (room username : Js.value) :
  acceptable body ->
  Loop.start env st sid (In.chat_message (Some body) room username)
  = {| Loop.state_now := st;
       Loop.emitted := [];
       Loop.next :=
         Loop.awaiting
           (Loop.chat_rest sid
              (Message.create (Env.now env) username (Some body) room)
              username body room) |}.
Proof.
  intros Hb. cbn [Loop.start]. now rewrite (acceptable_guard body Hb).
Qed.

Lemma resume_chat_message st sid (body : Js.str) (room username : Js.value) now :
  acceptable body ->
  Js.truthy username = true ->
  Loop.resume true st
    (Loop.chat_rest sid (Message.create now username (Some body) room)
       username body room)
  = {| after :=
         {| users := users st; rooms := rooms st;
            messages :=
              messages st ++ [Message.create now username (Some body) room] |};
       sent := io_to (rooms st) room (Out.chat_message username body now);
       how := Js.Returned |}.
Proof.
  intros Hb Hu. cbn [Loop.resume]. rewrite save_ok; [reflexivity | | reflexivity].
  unfold Message.validate, Message.create.
  cbn [Message.username Message.message].
  apply andb_true_iff. split; [assumption | now apply acceptable_truthy].
Qed.

(** What the room sees of a message sent from the chat form, in a state the
    server can be in with no handler waiting, when the input is at most 500
    units long and the name is not empty.  The form sends 'chat message' and
    'stop typing' back to back; the chat handler is suspended at its
    [await msg.save()] when 'stop typing' is handled, so 'stop typing' is
    relayed first: every socket of the room but the sender gets 'stop typing',
    and once the store has answered every socket of the room gets the
    message; sockets outside the room get nothing. *)
Theorem form_message_as_seen_in_the_room
        env1 env2 st sid (message room username s : Js.str) :
  reachable st ->
  Client.sendMessage message room username <> [] ->
  List.length message <= 500 ->
  username <> [] ->
  let arrivals :=
    map Loop.arrive
        (from sid (combine [env1; env2]
                     (Client.sendMessage message room username))) in
  received s (snd (Loop.run (st, []) (arrivals ++ [Loop.answer 0 true])))
  = (if in_room (rooms st) s room && negb (Js.str_eqb s sid)
     then [Out.stop_typing] else [])
    ++ (if in_room (rooms st) s room
        then [Out.chat_message (Some username) message (Env.now env1)] else []).
Proof.
  intros Hreach Hsend Hlen Hu.
  apply reachable_consistent in Hreach as [Hnd _].
  unfold Client.sendMessage in *.
  destruct (Js.truthy (Some (Js.trim message))) eqn:Et; [|congruence].
  assert (acceptable message) as Hacc.
  { split; [|assumption]. destruct (Js.trim message); [discriminate | congruence]. }
  assert (Js.truthy (Some username) = true) as Hname
      by (destruct username; [congruence | reflexivity]).
  cbn [combine from map fst snd app Loop.run Loop.tick_once].
  rewrite (start_chat_message env1 st sid message (Some room) (Some username) Hacc).
  cbn [Loop.next Loop.state_now Loop.emitted app].
  cbn [Loop.tick_once Loop.start Loop.whole Loop.next Loop.state_now
       Loop.emitted on_stop_typing after sent how app nth_error firstn skipn].
  rewrite (resume_chat_message st sid message (Some room) (Some username)
             (Env.now env1) Hacc Hname).
  cbn [after sent snd app]. rewrite app_nil_r, received_app.
  now rewrite received_io_to, received_socket_to.
Qed.

Lemma form_message_as_seen_in_the_room_witness :
  let arrivals :=
    map Loop.arrive
        (from alice_socket
           (combine [at_ fresh_id 104; at_ fresh_id 105]
              (Client.sendMessage (Js.lit "hi") (Js.lit "general")
                 (Js.lit "alice")))) in
  received bob_socket
    (snd (Loop.run (lobby, []) (arrivals ++ [Loop.answer 0 true])))
  = (if in_room (rooms lobby) bob_socket (Js.lit "general")
        && negb (Js.str_eqb bob_socket alice_socket)
     then [Out.stop_typing] else [])
    ++ (if in_room (rooms lobby) bob_socket (Js.lit "general")
        then [Out.chat_message (js "alice") (Js.lit "hi") 104] else []).
Proof.
  apply (form_message_as_seen_in_the_room (at_ fresh_id 104) (at_ fresh_id 105)
           lobby alice_socket (Js.lit "hi") (Js.lit "general") (Js.lit "alice")
           bob_socket).
  - exists lobby_trace. reflexivity.
  - vm_compute. discriminate.
  - simpl. lia.
  - discriminate.
Defined.

(** On the example: bob sees 'stop typing' and then alice's message. *)
Example bob_sees_stop_typing_first :
  received bob_socket
    (snd (Loop.run (lobby, [])
            (map Loop.arrive
               (from alice_socket
                  (combine [at_ fresh_id 104; at_ fresh_id 105]
                     (Client.sendMessage (Js.lit "hi") (Js.lit "general")
                        (Js.lit "alice"))))
             ++ [Loop.answer 0 true])))
  = [Out.stop_typing; Out.chat_message (js "alice") (Js.lit "hi") 104].
Proof. vm_compute. reflexivity. Qed.
